(** * machinelearnjs: the AdaBoost classifier and the Binarizer

    A shallow embedding of [src/lib/ensemble/weight_boosting.ts] and of the
    [Binarizer] of [src/lib/preprocessing/data.ts]; of the same file, the
    [MinMaxScaler] and the decoding side of the [OneHotEncoder].

    JavaScript numbers are modelled as rationals ([Q]): sums, differences and
    comparisons are exact and rounding is left out.  [Math.log] is the
    natural logarithm of the reals.  Exceptions are values of [result].
    Arrays that are only read are lists; the arrays the Binarizer writes to
    live in an explicit heap, so that two references to one row are seen. *)

From Stdlib Require Import ZArith QArith Reals Qreals Psatz List Bool.
From stdpp Require Import gmap list strings.

(** ** JavaScript results: a value, or a thrown exception *)

Module Js.

Inductive exn : Type :=
| TfShapeError      (* tensorflow rejects the values or the slice *)
| ReduceOfEmptyArray (* TypeError: reduce of empty array with no initial value *)
| XCannotBeNull      (* Error('X cannot be null') *)
| NotANumber.        (* Error(`Value ${item} is not a number`) *)

Inductive result (A : Type) : Type :=
| Ok (a : A)
| Throw (e : exn).
Arguments Ok {A} a.
Arguments Throw {A} e.

Definition bind {A B} (r : result A) (k : A -> result B) : result B :=
  match r with
  | Ok a => k a
  | Throw e => Throw e
  end.

(** A [for] loop over [l] whose body may throw. *)
Fixpoint for_each {A S} (body : S -> A -> result S) (l : list A) (s : S)
  : result S :=
  match l with
  | [] => Ok s
  | a :: l' => bind (body s a) (for_each body l')
  end.

(** The same loop, keeping what every iteration produced. *)
Fixpoint for_collect {A B} (body : A -> result B) (l : list A)
  : result (list B) :=
  match l with
  | [] => Ok []
  | a :: l' =>
      bind (body a) (fun b => bind (for_collect body l') (fun bs => Ok (b :: bs)))
  end.

End Js.

Import Js.

Notation "'let*' x ':=' r 'in' k" := (Js.bind r (fun x => k))
  (at level 10, x pattern, r at level 100, k at level 200, only parsing).

(** ** Numbers *)

Module Num.

Local Open Scope Q_scope.

(** [a < b] on numbers. *)
Definition ltb (a b : Q) : bool := negb (Qle_bool b a).

(** [minError] starts at [Infinity]. *)
Inductive ext : Type :=
| Infinity
| Fin (q : Q).

(** [error < minError] *)
Definition lt_ext (error : Q) (minError : ext) : bool :=
  match minError with
  | Infinity => true
  | Fin m => ltb error m
  end.

(** [a !== b] where either side may be [undefined] (an index past the end). *)
Definition strict_neq (a b : option Q) : bool :=
  match a, b with
  | Some x, Some y => negb (Qeq_bool x y)
  | None, None => false
  | _, _ => true
  end.

(** The value of [Math.log]: a real, or not a finite number. *)
Inductive lognum : Type :=
| Finite (r : R)
| NotFinite.

End Num.

Import Num.

(** ** The library calls [fit] makes *)

Module Tf.

Local Open Scope Q_scope.

(** A rank-2 tensor: its shape and its values in row-major order. *)
Record tensor2 : Type := { rows : nat; cols : nat; data : list Q }.

(** [tf.tensor2d(X)] for a nested array [X]: the shape is read off the
    first elements ([X.length], [X[0].length]), the values are flattened,
    and the call throws when [X] has no row to read a width from or when
    the values do not fill the shape.  The values are kept as they are
    given; the tensor stores the float32 nearest to each, the same number
    for the small integers and halves of the examples. *)
Definition tensor2d (X : list (list Q)) : result tensor2 :=
  match X with
  | [] => Throw TfShapeError
  | row0 :: _ =>
      let values := concat X in
      if Nat.eqb (length values) (length X * length row0)
      then Ok {| rows := length X; cols := length row0; data := values |}
      else Throw TfShapeError
  end.

(** [tf.tensor1d(y).shape] for a flat array [y]. *)
Definition tensor1d_shape (y : list Q) : nat := length y.

(** [t.slice([0], [j]).expandDims(1).dataSync()]: begin [0] and size [j]
    on the first axis, the whole of the second axis.  These are the first
    [j] rows of the tensor, none for [j = 0]; the slice throws when there
    are fewer than [j] rows. *)
Definition slice_data (t : tensor2) (j : nat) : result (list Q) :=
  if Nat.leb j (rows t)
  then Ok (firstn (j * cols t) (data t))
  else Throw TfShapeError.

(** [Array.from(tf.fill([n], v).dataSync())] *)
Definition fill (n : nat) (v : Q) : list Q := repeat v n.

(** [Array.from(tf.ones([n]).dataSync())] *)
Definition ones (n : nat) : list Q := repeat 1 n.

End Tf.

Module Lodash.

(** [uniq]: the first occurrence of every value, in order. *)
Fixpoint uniq_from (seen l : list Q) : list Q :=
  match l with
  | [] => []
  | x :: l' =>
      if existsb (Qeq_bool x) seen then uniq_from seen l'
      else x :: uniq_from (x :: seen) l'
  end.

Definition uniq (l : list Q) : list Q := uniq_from [] l.

(** [flattenDeep] of an array of numbers is that array. *)
Definition flattenDeep (l : list Q) : list Q := l.

End Lodash.

Module Ops.

(** Modelled from the spec: [inferShape] of [../ops] is not among the
    sources.  The data model has [X] an n-by-m matrix, n samples of m
    features each: [inferShape(X)] is [(n, m)], the shape of the tensor
    made of [X], and it throws when there is no such tensor. *)
Definition inferShape (X : list (list Q)) : result (nat * nat) :=
  let* t := Tf.tensor2d X in Ok (Tf.rows t, Tf.cols t).

(** Modelled from the spec: [reshape] of [../ops] is not among the
    sources.  The predictions of a candidate are one label per entry of
    [y]: reshaping a flat array to the one-dimensional shape of [y]
    returns its entries as they are. *)
Definition reshape (l : list Q) (shape : nat) : list Q := l.

End Ops.

(** ** [weight_boosting.ts] *)

Module Adaboost.

Local Open Scope Q_scope.

(** [class DecisionStump]: [null] fields are [None]. *)
Record DecisionStump : Type := {
  polarity : Z;
  featureIndex : option nat;
  threshold : option Q;
  alpha : option lognum
}.

Definition new_DecisionStump : DecisionStump :=
  {| polarity := 1; featureIndex := None; threshold := None; alpha := None |}.

(** [class AdaboostClassifier]: the two private fields. *)
Record AdaboostClassifier : Type := {
  nCls : nat;
  cls : list DecisionStump
}.

(** [constructor({ n_cls = 10 })] *)
Definition new_AdaboostClassifier (n_cls : option nat) : AdaboostClassifier :=
  {| nCls := match n_cls with Some n => n | None => 10%nat end; cls := [] |}.

(** [1e-10] *)
Definition eps : Q := 1 # 10000000000.

(** Lines 57 to 62: the labels a threshold gives, one per entry of [y]. *)
Definition prediction (ny : nat) (threshold : Q) : list Q :=
  Ops.reshape
    (map (fun x => if ltb x threshold then (-1) else x) (Tf.ones ny)) ny.

(** [array.filter((value, index) => keep(value, index))] *)
Fixpoint filter_from {A} (keep : A -> nat -> bool) (index : nat) (l : list A)
  : list A :=
  match l with
  | [] => []
  | a :: l' =>
      if keep a index then a :: filter_from keep (S index) l'
      else filter_from keep (S index) l'
  end.

Definition filter_index {A} (keep : A -> nat -> bool) (l : list A) : list A :=
  filter_from keep 0 l.

(** [array.reduce((total, x) => total + x)], without an initial value. *)
Definition reduce_sum (l : list Q) : result Q :=
  match l with
  | [] => Throw ReduceOfEmptyArray
  | x :: l' => Ok (fold_left Qplus l' x)
  end.

(** Lines 66 to 68: the sum of the weights of the misclassified samples. *)
Definition weighted_error (w y : list Q) (threshold : Q) : result Q :=
  let prediction := prediction (Tf.tensor1d_shape y) threshold in
  reduce_sum
    (filter_index
       (fun _ index => strict_neq (y !! index) (prediction !! index)) w).

(** Lines 54 to 76: the polarity and the error of one threshold. *)
Definition candidate (w y : list Q) (threshold : Q) : result (Z * Q) :=
  let* error := weighted_error w y threshold in
  if ltb (1 # 2) error then Ok ((-1)%Z, 1 - error) else Ok (1%Z, error).

(** The body of the loop over [k], in round [i]. *)
Definition try_threshold (i : nat) (w y : list Q)
    (st : DecisionStump * ext) (threshold : Q) : result (DecisionStump * ext) :=
  let '(clf, minError) := st in
  let* (p, error) := candidate w y threshold in
  if lt_ext error minError
  then Ok ({| polarity := p;
              featureIndex := Some i;
              threshold := Some threshold;
              alpha := alpha clf |}, Fin error)
  else Ok (clf, minError).

(** The body of the loop over [j], in round [i]. *)
Definition try_feature (i : nat) (w : list Q) (tensorX : Tf.tensor2)
    (y : list Q) (st : DecisionStump * ext) (j : nat)
  : result (DecisionStump * ext) :=
  let* featureValues := Tf.slice_data tensorX j in
  let uniqueValues := Lodash.uniq (Lodash.flattenDeep featureValues) in
  for_each (try_threshold i w y) uniqueValues st.

(** Line 91: [0.5 * Math.log((1.0 - minError) / (minError + 1e-10))].
    The logarithm is a real number when its argument is positive and
    finite; otherwise it is [NaN] or an infinity. *)
Definition stump_alpha (minError : ext) : lognum :=
  match minError with
  | Infinity => NotFinite
  | Fin e =>
      if ltb 0 ((1 - e) / (e + eps))
      then Finite (/ 2 * ln ((1 - Q2R e) / (Q2R e + Q2R eps)))%R
      else NotFinite
  end.

(** The body of the loop over [i]: the stump of round [i] and its error. *)
Definition round (w : list Q) (tensorX : Tf.tensor2) (y : list Q)
    (nFeatures : nat) (i : nat) : result (DecisionStump * ext) :=
  let clf := new_DecisionStump in
  let minError := Infinity in
  let* (clf, minError) :=
    for_each (try_feature i w tensorX y) (seq 0 nFeatures) (clf, minError) in
  Ok ({| polarity := polarity clf;
         featureIndex := featureIndex clf;
         threshold := threshold clf;
         alpha := Some (stump_alpha minError) |}, minError).

(** Line 35: the weights, [1 / nSamples] each.  The quotient is kept as
    it is; read back from the float32 tensor it is the float32 nearest to
    it, the same number when [nSamples] is a power of two.  What is proved
    of a round for all weights does not depend on it. *)
Definition initial_weights (nSamples : nat) : list Q :=
  Tf.fill nSamples (1 / inject_Z (Z.of_nat nSamples)).

(** [fit], as the list of what its rounds compute.  [tensorY] is used for
    its shape only, the length of [y]. *)
Definition fit_rounds (c : AdaboostClassifier) (X : list (list Q)) (y : list Q)
  : result (list (DecisionStump * ext)) :=
  let* tensorX := Tf.tensor2d X in
  let* (nSamples, nFeatures) := Ops.inferShape X in
  let w := initial_weights nSamples in
  for_collect (round w tensorX y nFeatures) (seq 0 (nCls c)).

(** [fit(X, y): void]: the instance after the call, and whether the call
    returned or threw.  No statement of [fit] assigns to a field of
    [this]. *)
Definition fit (c : AdaboostClassifier) (X : list (list Q)) (y : list Q)
  : AdaboostClassifier * result unit :=
  (c, let* _ := fit_rounds c X y in Ok tt).

Section Stubs.

(** [TypeModelState] of [../types] is not among the sources. *)
Variable TypeModelState : Type.

(** [fromJSON(state): void {}] *)
Definition fromJSON (c : AdaboostClassifier) (state : option TypeModelState)
  : AdaboostClassifier := c.

(** [predict(X) { return undefined; }] *)
Definition predict (c : AdaboostClassifier) (X : list (list Q))
  : option (list Q) := None.

(** [toJSON() { return undefined; }] *)
Definition toJSON (c : AdaboostClassifier) : option TypeModelState := None.

End Stubs.

End Adaboost.

(** ** The [Binarizer] of [preprocessing/data.ts] *)

Module Binarizer.

Local Open Scope Q_scope.

(** A JavaScript value: a number, a reference to an array, or [null]. *)
Inductive value : Type :=
| VNum (q : Q)
| VRef (l : nat)
| VNull.

(** The heap: the elements of every array, by reference. *)
Abbreviation heap := (gmap nat (list value)).

Record Binarizer : Type := {
  threshold : Q;
  copy : bool
}.

(** [constructor({ threshold = 0, copy = true })] *)
Definition new_Binarizer (threshold : option Q) (copy : option bool) : Binarizer :=
  {| threshold := match threshold with Some t => t | None => 0 end;
     copy := match copy with Some c => c | None => true end |}.

(** [_.size(v)]: the length of an array, 0 for a number or [null]. *)
Definition size (h : heap) (v : value) : nat :=
  match v with
  | VRef l => length (default [] (h !! l))
  | _ => 0
  end.

(** [_.isEmpty(v)] *)
Definition isEmpty (h : heap) (v : value) : bool := Nat.eqb (size h v) 0.

(** [v[i]], [undefined] being [None]. *)
Definition get (h : heap) (v : value) (i : nat) : option value :=
  match v with
  | VRef l => default [] (h !! l) !! i
  | _ => None
  end.

(** [_.get(X, `[${row}][${column}]`)] *)
Definition get2 (h : heap) (X : value) (row column : nat) : option value :=
  match get h X row with
  | Some rowValue => get h rowValue column
  | None => None
  end.

(** [item <= threshold ? 0 : 1] *)
Definition binarize (threshold : Q) (q : Q) : Q :=
  if Qle_bool q threshold then 0 else 1.

(** [_X[row][column] = x]: the element of the array that [_X[row]] refers to. *)
Definition set2 (h : heap) (_X : value) (row column : nat) (x : value) : heap :=
  match get h _X row with
  | Some (VRef r) => alter (fun items => <[column := x]> items) r h
  | _ => h
  end.

(** [_.clone(X)]: a new array holding the same elements. *)
Definition clone (h : heap) (X : value) : heap * value :=
  match X with
  | VRef l =>
      let l' := fresh (dom h) in
      (<[l' := default [] (h !! l)]> h, VRef l')
  | _ => (h, X)
  end.

(** A loop whose body reads and writes the heap and may throw; what was
    written before the exception stays written. *)
Fixpoint for_heap {A} (body : A -> heap -> heap * result unit) (l : list A)
    (h : heap) : heap * result unit :=
  match l with
  | [] => (h, Ok tt)
  | a :: l' =>
      match body a h with
      | (h', Ok _) => for_heap body l' h'
      | (h', Throw e) => (h', Throw e)
      end
  end.

(** The body of the loop over [column]: [_.isNumber(item)] holds of a number
    and of nothing else, [undefined] included. *)
Definition transform_item (b : Binarizer) (X _X : value) (row column : nat)
    (h : heap) : heap * result unit :=
  let item := get2 h X row column in
  match item with
  | Some (VNum q) =>
      (set2 h _X row column (VNum (binarize (threshold b) q)), Ok tt)
  | _ => (h, Throw NotANumber)
  end.

(** The body of the loop over [row].  The bounds [_.size(rowValue)] and
    [_.size(X)] are read once: every assignment of the loop is in range and
    leaves the length of every array as it is ([set2_size] below). *)
Definition transform_row (b : Binarizer) (X _X : value) (row : nat) (h : heap)
  : heap * result unit :=
  match get h X row with
  | Some rowValue =>
      for_heap (transform_item b X _X row) (seq 0 (size h rowValue)) h
  | None => (h, Ok tt)
  end.

(** [transform(X)]: the heap after the call, and the array returned. *)
Definition transform (b : Binarizer) (X : value) (h : heap)
  : heap * result value :=
  let '(h, _X) := if copy b then clone h X else (h, X) in
  if isEmpty h X then (h, Throw XCannotBeNull)
  else
    match for_heap (transform_row b X _X) (seq 0 (size h X)) h with
    | (h', Ok _) => (h', Ok _X)
    | (h', Throw e) => (h', Throw e)
    end.

(** The matrix a value refers to, read through the heap. *)
Definition read_row (h : heap) (v : value) : list value :=
  match v with
  | VRef r => default [] (h !! r)
  | _ => []
  end.

Definition read_matrix (h : heap) (X : value) : list (list value) :=
  read_row h <$> read_row h X.

(** A row after it was binarized. *)
Definition binarize_value (threshold : Q) (v : value) : value :=
  match v with
  | VNum q => VNum (binarize threshold q)
  | _ => v
  end.

Definition binarize_row (threshold : Q) (items : list value) : list value :=
  binarize_value threshold <$> items.

(** [X] is the array at [l], its elements are references to the arrays
    [rs], and these hold numbers only. *)
Definition numeric_matrix (h : heap) (l : nat) (rs : list nat) : Prop :=
  h !! l = Some (VRef <$> rs) /\
  forall r, r ∈ rs -> exists qs : list Q, h !! r = Some (VNum <$> qs).

End Binarizer.

(** ** The [MinMaxScaler] of [preprocessing/data.ts] *)

Module JsNumber.

Local Open Scope Q_scope.

(** A field that holds a number: a finite number (a rational; there is one
    zero, the positive one), an infinity, [NaN], or [undefined].  Finite
    results are exact, with neither the rounding nor the overflow of a
    double; what is proved of the scaler is about results that are [NaN],
    which neither changes. *)
Inductive jsnum : Type :=
| Val (q : Q)
| PosInf
| NegInf
| NaN
| Undef.

(** [-a] *)
Definition neg (a : jsnum) : jsnum :=
  match a with
  | Val q => Val (- q)
  | PosInf => NegInf
  | NegInf => PosInf
  | _ => NaN
  end.

(** [a + b]; [undefined] counts as [NaN]. *)
Definition add (a b : jsnum) : jsnum :=
  match a, b with
  | Val x, Val y => Val (x + y)
  | Val _, PosInf | PosInf, Val _ | PosInf, PosInf => PosInf
  | Val _, NegInf | NegInf, Val _ | NegInf, NegInf => NegInf
  | _, _ => NaN
  end.

(** [a - b] *)
Definition sub (a b : jsnum) : jsnum := add a (neg b).

(** An infinity times a finite number of the given sign. *)
Definition scaled_inf (inf : jsnum) (q : Q) : jsnum :=
  match q ?= 0 with
  | Gt => inf
  | Lt => neg inf
  | Eq => NaN
  end.

(** [a * b] *)
Definition mul (a b : jsnum) : jsnum :=
  match a, b with
  | Val x, Val y => Val (x * y)
  | Val x, PosInf | PosInf, Val x => scaled_inf PosInf x
  | Val x, NegInf | NegInf, Val x => scaled_inf NegInf x
  | PosInf, PosInf | NegInf, NegInf => PosInf
  | PosInf, NegInf | NegInf, PosInf => NegInf
  | _, _ => NaN
  end.

(** [a / b]; a finite number over zero is an infinity of its sign, and
    zero over zero is [NaN]. *)
Definition div (a b : jsnum) : jsnum :=
  match a, b with
  | Val x, Val y =>
      if Qeq_bool y 0 then scaled_inf PosInf x else Val (x / y)
  | Val _, PosInf | Val _, NegInf => Val 0
  | PosInf, Val y => if Qle_bool 0 y then PosInf else NegInf
  | NegInf, Val y => if Qle_bool 0 y then NegInf else PosInf
  | _, _ => NaN
  end.

(** [_.max] and [_.min] of an array of numbers: the first element, replaced
    by every later one the comparator prefers; [undefined] for no element. *)
Fixpoint extremum (prefers : Q -> Q -> bool) (l : list Q) (computed : jsnum)
  : jsnum :=
  match l with
  | [] => computed
  | current :: l' =>
      match computed with
      | Val c =>
          extremum prefers l' (if prefers current c then Val current else computed)
      | _ => extremum prefers l' (Val current)
      end
  end.

Definition max (X : list Q) : jsnum := extremum (fun a b => ltb b a) X Undef.
Definition min (X : list Q) : jsnum := extremum ltb X Undef.

End JsNumber.

Module MinMaxScaler.

Import JsNumber.

(** [class MinMaxScaler]: its private fields. *)
Record MinMaxScaler : Type := {
  featureRange : jsnum * jsnum;
  dataMax : jsnum;
  dataMin : jsnum;
  featureMax : jsnum;
  featureMin : jsnum;
  dataRange : jsnum;
  scale : jsnum;
  baseMin : jsnum
}.

(** [constructor({ featureRange = [0, 1] })]: the other fields are not
    set. *)
Definition new_MinMaxScaler (featureRange : option (jsnum * jsnum))
  : MinMaxScaler :=
  {| featureRange := match featureRange with
                     | Some r => r
                     | None => (Val 0, Val 1)
                     end;
     dataMax := Undef; dataMin := Undef; featureMax := Undef;
     featureMin := Undef; dataRange := Undef; scale := Undef;
     baseMin := Undef |}.

(** [fit(X)]: the scaler after the call. *)
Definition fit (s : MinMaxScaler) (X : list Q) : MinMaxScaler :=
  let dataMax := JsNumber.max X in
  let dataMin := JsNumber.min X in
  let featureMax := snd (featureRange s) in
  let featureMin := fst (featureRange s) in
  let dataRange := sub dataMax dataMin in
  let scale := div (sub featureMax featureMin) dataRange in
  let baseMin := sub featureMin (mul dataMin scale) in
  {| featureRange := featureRange s;
     dataMax := dataMax; dataMin := dataMin;
     featureMax := featureMax; featureMin := featureMin;
     dataRange := dataRange; scale := scale; baseMin := baseMin |}.

(** [fit_transform(X)]: [X.map(x => x * this.scale).map(x => x + this.baseMin)];
    no field is assigned. *)
Definition fit_transform (s : MinMaxScaler) (X : list Q) : list jsnum :=
  map (fun x => add x (baseMin s)) (map (fun x => mul (Val x) (scale s)) X).

End MinMaxScaler.

(** ** The decoding side of the [OneHotEncoder] of [preprocessing/data.ts] *)

Module OneHotEncoder.

Import JsNumber.

Local Open Scope Q_scope.

(** [decoder.type], as [decodeRow] compares it: 'string', 'number',
    'boolean', or anything else. *)
Inductive dtype : Type :=
| TString
| TNumber
| TBoolean
| TOther.

(** A decoder object.  A property the object lacks is [None], or [Undef]
    for a number.  An [offset] is a length, as [buildStringOneHot] sets
    it. *)
Record decoder : Type := {
  type : dtype;
  key : string;
  offset : option nat;
  lookupTable : option (list string);
  mean : jsnum;
  std : jsnum
}.

(** The value of a field of a record. *)
Inductive value : Type :=
| VString (s : string)
| VNumber (x : jsnum)
| VBoolean (b : bool)
| VUndefined.

(** What a decoding ends with: a result, or the TypeError of reading a
    property of [undefined]. *)
Inductive outcome (A : Type) : Type :=
| Decoded (a : A)
| TypeError.
Arguments Decoded {A} a.
Arguments TypeError {A}.

(** [x === 1] *)
Definition is_one (x : jsnum) : bool :=
  match x with
  | Val q => Qeq_bool q 1
  | _ => false
  end.

(** [_.indexOf(data, 1)], [None] standing for [-1]. *)
Fixpoint indexOf_1 (data : list jsnum) : option nat :=
  match data with
  | [] => None
  | x :: data' => if is_one x then Some 0%nat else S <$> indexOf_1 data'
  end.

(** [!!x] for a row element. *)
Definition truthy (x : jsnum) : bool :=
  match x with
  | Val q => negb (Qeq_bool q 0)
  | PosInf | NegInf => true
  | NaN | Undef => false
  end.

(** [getStrVal(X, ix, decoder)], the row being given from [ix] on:
    [X.slice(ix, ix + decoder.offset)] is empty when there is no offset. *)
Definition getStrVal (X : list jsnum) (d : decoder) : outcome value :=
  let data := match offset d with
              | Some n => take n X
              | None => []
              end in
  match lookupTable d with
  | None => TypeError
  | Some table =>
      Decoded match indexOf_1 data with
              | Some k => match table !! k with
                          | Some s => VString s
                          | None => VUndefined
                          end
              | None => VUndefined
              end
  end.

(** [getBoolVal(X, ix)], for the element [x] at [ix]. *)
Definition getBoolVal (x : jsnum) : value := VBoolean (truthy x).

(** [getNumbVal(X, ix, decoder)]: [decoder.std * X[ix] + decoder.mean]. *)
Definition getNumbVal (x : jsnum) (d : decoder) : value :=
  VNumber (add (mul (std d) x) (mean d)).

(** [row[i]] stored as it is. *)
Definition raw (x : jsnum) : value :=
  match x with
  | Undef => VUndefined
  | _ => VNumber x
  end.

(** The value [decodeRow] stores for a decoder, [X] being the row from [i]
    on and [x] its first element. *)
Definition decode_field (d : decoder) (X : list jsnum) (x : jsnum)
  : outcome value :=
  match type d with
  | TString => getStrVal X d
  | TNumber => Decoded (getNumbVal x d)
  | TBoolean => Decoded (getBoolVal x)
  | TOther => Decoded (raw x)
  end.

(** [decoder.offset ? decoder.offset : 1] *)
Definition step (d : decoder) : nat :=
  match offset d with
  | Some (S n) => S n
  | _ => 1
  end.

(** [record[key] = v] on a plain object, for a value that is a string, a
    number, a boolean or [undefined]: the key ['__proto__'] is the setter
    of the prototype, which ignores such a value and stores nothing. *)
Definition store (k : string) (v : value) (record : gmap string value)
  : gmap string value :=
  if String.eqb k "__proto__" then record else <[k := v]> record.

(** The [while] loop of [decodeRow], the row being given from [i] on and
    the decoders from [numFieldsDecoded] on.  Every turn takes one
    decoder; taking one when none is left is the TypeError. *)
Fixpoint decodeRow_from (X : list jsnum) (decoders : list decoder)
    (record : gmap string value) {struct decoders}
  : outcome (gmap string value) :=
  match X with
  | [] => Decoded record
  | x :: _ =>
      match decoders with
      | [] => TypeError
      | d :: decoders' =>
          match decode_field d X x with
          | TypeError => TypeError
          | Decoded v =>
              decodeRow_from (drop (step d) X) decoders' (store (key d) v record)
          end
      end
  end.

(** [decodeRow(row, decoders)] *)
Definition decodeRow (row : list jsnum) (decoders : list decoder)
  : outcome (gmap string value) :=
  decodeRow_from row decoders ∅.

(** [decode(encoded, decoders)]: [decodeRow] of every row, in order. *)
Fixpoint decode (encoded : list (list jsnum)) (decoders : list decoder)
  : outcome (list (gmap string value)) :=
  match encoded with
  | [] => Decoded []
  | row :: encoded' =>
      match decodeRow row decoders with
      | TypeError => TypeError
      | Decoded record =>
          match decode encoded' decoders with
          | TypeError => TypeError
          | Decoded records => Decoded (record :: records)
          end
      end
  end.

(** The element [buildBooleanOneHot] encodes a boolean as: [value ? 1 : 0]. *)
Definition boolean_code (b : bool) : jsnum := Val (if b then 1 else 0).

(** The elements [buildStringOneHot] encodes a value as, when the value has
    number [looked_up] in the lookup and the lookup has [i] entries:
    [_.range(0, i).map(pos => looked_up === pos ? 1 : 0)]. *)
Definition string_code (looked_up : nat) (i : nat) : list jsnum :=
  map (fun pos => Val (if Nat.eqb looked_up pos then 1 else 0)) (seq 0 i).

(** A boolean or string decoder as the builders make it, a value of its
    field, and the elements the value is encoded as. *)
Inductive encodes : decoder -> value -> list jsnum -> Prop :=
| encodes_boolean (d : decoder) (b : bool) :
    type d = TBoolean -> offset d = None ->
    encodes d (VBoolean b) [boolean_code b]
| encodes_string (d : decoder) (table : list string) (k : nat) (s : string) :
    type d = TString -> lookupTable d = Some table ->
    offset d = Some (length table) -> table !! k = Some s ->
    encodes d (VString s) (string_code k (length table)).

(** The elements of the row the decoders consume between them. *)
Definition covered (decoders : list decoder) : nat :=
  fold_right (fun d n => (step d + n)%nat) 0%nat decoders.

End OneHotEncoder.

(** ** What the specification says, for comparison *)

Module Spec.

Local Open Scope Q_scope.

(** The decision rule of a stump: [+1] if
    [polarity * x[featureIndex] >= polarity * threshold], else [-1]. *)
Definition stumpPrediction (polarity : Q) (featureIndex : nat) (threshold : Q)
    (x : list Q) : Q :=
  if Qle_bool (polarity * threshold) (polarity * nth featureIndex x 0)
  then 1 else -1.

(** The weighted misclassification rate: the sum of [w_i] over the samples
    whose prediction differs from [y_i]. *)
Fixpoint weightedError (w pred y : list Q) : Q :=
  match w, pred, y with
  | wi :: w', pi :: pred', yi :: y' =>
      (if Qeq_bool pi yi then 0 else wi) + weightedError w' pred' y'
  | _, _, _ => 0
  end.

(** The confidence coefficient, with [ε] in the denominator and, when
    [numerator] is set, in the numerator too. *)
Definition alpha (numerator : bool) (ε e : R) : R :=
  (/ 2 * ln ((1 - e + (if numerator then ε else 0)) / (e + ε)))%R.

(** [weights[i] * exp(-alpha * y[i] * pred[i])] for each sample. *)
Fixpoint reweigh (α : R) (w y pred : list R) : list R :=
  match w, y, pred with
  | wi :: w', yi :: y', pi :: pred' =>
      (wi * exp (- α * yi * pi))%R :: reweigh α w' y' pred'
  | _, _, _ => []
  end.

Fixpoint Rsum (l : list R) : R :=
  match l with
  | [] => 0%R
  | x :: l' => (x + Rsum l')%R
  end.

(** The next weights: reweighed, then renormalized to sum to 1. *)
Definition nextWeights (α : R) (w y pred : list R) : list R :=
  let u := reweigh α w y pred in
  map (fun x => x / Rsum u)%R u.

End Spec.

Import Adaboost.

(** ** Inputs used below *)

Module Scenario.

Local Open Scope Q_scope.

(** What a round selected: polarity, featureIndex, threshold, minError. *)
Definition selected (r : DecisionStump * ext)
  : Z * option nat * option Q * ext :=
  (polarity (fst r), featureIndex (fst r), threshold (fst r), snd r).

Definition selected_rounds (r : result (list (DecisionStump * ext)))
  : result (list (Z * option nat * option Q * ext)) :=
  let* rounds := r in Ok (map selected rounds).

(** Two samples of two features; the first feature separates the labels. *)
Definition X2 : list (list Q) := [[1; 1]; [0; 0]].
Definition y2 : list Q := [1; -1].

(** Five rows in [X], four labels in [y]. *)
Definition X5 : list (list Q) := repeat [1; 1] 5.
Definition y4 : list Q := [1; -1; 1; 1].

(** Ten samples, nine of them labelled [-1]. *)
Definition X10 : list (list Q) := repeat [1; 1] 10.
Definition y10 : list Q := repeat (-1) 9 ++ [1].

(** Four samples, the last one labelled [-1]. *)
Definition X4 : list (list Q) := repeat [1; 1] 4.
Definition y4' : list Q := [1; 1; 1; -1].

(** One sample, labelled [-1]. *)
Definition X1 : list (list Q) := [[1; 1]].

(** The matrix of the comment above [transform], at references 1, 2, 3
    of a heap whose array 0 holds the three rows. *)
Definition hB : gmap nat (list Binarizer.value) :=
  <[0%nat := Binarizer.VRef <$> [1; 2; 3]%nat]>
    (<[1%nat := Binarizer.VNum <$> [1; -1; 2]]>
       (<[2%nat := Binarizer.VNum <$> [2; 0; 0]]>
          (<[3%nat := Binarizer.VNum <$> [0; 1; -1]]> ∅))).

End Scenario.

Import Scenario.

(** ** Exceptions and loops *)

(** ** Vocabulary of the statements *)

(** The exceptions [fit] can end with. *)
Definition fit_exn (e : exn) : Prop :=
  e = TfShapeError \/ e = ReduceOfEmptyArray.

(** The sum of a list of numbers. *)
Fixpoint Qsum (l : list Q) : Q :=
  match l with
  | [] => 0%Q
  | x :: l' => (x + Qsum l')%Q
  end.

(** Weights: none negative, and at most 1 in total. *)
Definition weights_ok (w : list Q) : Prop :=
  Forall (fun x => 0 <= x)%Q w /\ (Qsum w <= 1)%Q.

(** The smallest error so far is [Infinity] or lies between 0 and 1/2. *)
Definition minError_ok (minError : ext) : Prop :=
  match minError with
  | Infinity => True
  | Fin e => (0 <= e <= 1 # 2)%Q
  end.

(** The thresholds the loop over [k] runs through for feature [j]. *)
Definition feature_thresholds (tensorX : Tf.tensor2) (j : nat) : result (list Q) :=
  let* featureValues := Tf.slice_data tensorX j in
  Ok (Lodash.uniq (Lodash.flattenDeep featureValues)).

(** All the thresholds a round evaluates, in the order of evaluation. *)
Definition round_thresholds (tensorX : Tf.tensor2) (nFeatures : nat)
  : result (list Q) :=
  let* per_feature := for_collect (feature_thresholds tensorX) (seq 0 nFeatures) in
  Ok (concat per_feature).

(** A number that a float32 tensor stores as it is: an integer of less
    than 24 bits times a power of two within the range of the format. *)
Definition float32_value (q : Q) : Prop :=
  exists m e : Z,
    (Z.abs m < 2 ^ 24)%Z /\ (-149 <= e <= 104)%Z /\
    (q == inject_Z m * 2 ^ e)%Q.

(** The stump of a round that evaluated no threshold. *)
Definition empty_round : DecisionStump * ext :=
  ({| polarity := 1; featureIndex := None; threshold := None;
      alpha := Some NotFinite |}, Infinity).

(** What the search of round [i] holds after the thresholds [ts]: the new
    stump when there were none, else the first threshold of smallest
    error, with its polarity. *)
Definition search_holds (i : nat) (w y ts : list Q) (st : DecisionStump * ext)
  : Prop :=
  match snd st with
  | Infinity => ts = [] /\ fst st = new_DecisionStump
  | Fin e =>
      exists (k : nat) (t : Q) (p : Z),
        ts !! k = Some t /\ candidate w y t = Ok (p, e) /\
        polarity (fst st) = p /\ threshold (fst st) = Some t /\
        featureIndex (fst st) = Some i /\
        forall (k' : nat) (t' : Q) (p' : Z) (e' : Q),
          ts !! k' = Some t' -> candidate w y t' = Ok (p', e') ->
          (e <= e')%Q /\ ((k' < k)%nat -> (e < e')%Q)
  end.

(** Two search states that differ in the feature index at most. *)
Definition alike (st st' : DecisionStump * ext) : Prop :=
  polarity (fst st) = polarity (fst st') /\
  threshold (fst st) = threshold (fst st') /\
  alpha (fst st) = alpha (fst st') /\
  snd st = snd st'.

(** Two runs that throw the same exception or end in states alike. *)
Definition runs_alike (r r' : result (DecisionStump * ext)) : Prop :=
  match r, r' with
  | Ok st, Ok st' => alike st st'
  | Throw e, Throw e' => e = e'
  | _, _ => False
  end.

Lemma bind_Ok {A B} (r : result A) (k : A -> result B) (b : B) :
  Js.bind r k = Ok b -> exists a, r = Ok a /\ k a = Ok b.
Proof.
  destruct r as [a|e]; simpl; intros H; [eauto | discriminate].
Qed.

Lemma bind_Throw {A B} (r : result A) (k : A -> result B) (e : exn) :
  Js.bind r k = Throw e -> r = Throw e \/ exists a, r = Ok a /\ k a = Throw e.
Proof.
  destruct r as [a|e0]; simpl; intros H; [eauto | left; congruence].
Qed.

Section Loops.

Context {A B S : Type}.

(** A loop preserves what every iteration preserves. *)
Lemma for_each_invariant (P : S -> Prop) (body : S -> A -> result S) :
  (forall s a s', P s -> body s a = Ok s' -> P s') ->
  forall l s s', P s -> for_each body l s = Ok s' -> P s'.
Proof.
  intros Hbody l; induction l as [|a l IH]; simpl; intros s s' Hs Hrun.
  - injection Hrun as <-. exact Hs.
  - apply bind_Ok in Hrun as (s1 & H1 & H2). eauto.
Qed.

(** A loop throws only what an iteration throws. *)
Lemma for_each_throws (E : exn -> Prop) (body : S -> A -> result S) :
  (forall s a e, body s a = Throw e -> E e) ->
  forall l s e, for_each body l s = Throw e -> E e.
Proof.
  intros Hbody l; induction l as [|a l IH]; simpl; intros s e Hrun.
  - discriminate.
  - destruct (body s a) as [s1|e1] eqn:H1; simpl in Hrun.
    + eauto.
    + injection Hrun as <-. eauto.
Qed.

Lemma for_collect_throws (E : exn -> Prop) (body : A -> result B) :
  (forall a e, body a = Throw e -> E e) ->
  forall l e, for_collect body l = Throw e -> E e.
Proof.
  intros Hbody l; induction l as [|a l IH]; simpl; intros e Hrun.
  - discriminate.
  - destruct (body a) as [b|e1] eqn:H1; simpl in Hrun.
    + destruct (for_collect body l) as [bs|e2] eqn:H2; simpl in Hrun.
      * discriminate.
      * injection Hrun as <-. eauto.
    + injection Hrun as <-. eauto.
Qed.

(** The i-th collected result is the body run at the i-th element. *)
Lemma for_collect_lookup (body : A -> result B) :
  forall l bs i b, for_collect body l = Ok bs -> bs !! i = Some b ->
    exists a, l !! i = Some a /\ body a = Ok b.
Proof.
  induction l as [|a l IH]; simpl; intros bs i b Hrun Hi.
  - injection Hrun as <-. destruct i; discriminate.
  - apply bind_Ok in Hrun as (b0 & H0 & Hrun).
    apply bind_Ok in Hrun as (bs0 & Hbs & Hrun).
    injection Hrun as <-.
    destruct i as [|i]; simpl in Hi.
    + injection Hi as <-. exists a. auto.
    + destruct (IH bs0 i b Hbs Hi) as (a' & Ha & Hb). exists a'. auto.
Qed.

Lemma for_collect_length (body : A -> result B) :
  forall l bs, for_collect body l = Ok bs -> length bs = length l.
Proof.
  induction l as [|a l IH]; simpl; intros bs Hrun.
  - injection Hrun as <-. reflexivity.
  - apply bind_Ok in Hrun as (b0 & H0 & Hrun).
    apply bind_Ok in Hrun as (bs0 & Hbs & Hrun).
    injection Hrun as <-. simpl. f_equal. eauto.
Qed.

End Loops.

(** ** What [fit] can throw *)

Lemma candidate_throws w y t e :
  candidate w y t = Throw e -> e = ReduceOfEmptyArray.
Proof.
  unfold candidate, weighted_error, reduce_sum.
  destruct (filter_index _ w) as [|x l]; simpl.
  - congruence.
  - destruct (ltb _ _); discriminate.
Qed.

Lemma try_threshold_throws i w y st t e :
  try_threshold i w y st t = Throw e -> fit_exn e.
Proof.
  destruct st as [clf minError]. unfold try_threshold. intros H.
  apply bind_Throw in H as [H | ([p error] & _ & H)].
  - right. eapply candidate_throws; eauto.
  - destruct (lt_ext error minError); discriminate.
Qed.

Lemma try_feature_throws i w tX y st j e :
  try_feature i w tX y st j = Throw e -> fit_exn e.
Proof.
  unfold try_feature. intros H.
  apply bind_Throw in H as [H | (vals & _ & H)].
  - left. unfold Tf.slice_data in H. destruct (Nat.leb _ _); congruence.
  - eapply for_each_throws in H; [exact H|].
    intros s a e0. apply try_threshold_throws.
Qed.

Lemma round_throws w tX y m i e :
  round w tX y m i = Throw e -> fit_exn e.
Proof.
  unfold round. intros H.
  apply bind_Throw in H as [H | ([clf minError] & _ & H)]; [|discriminate].
  eapply for_each_throws in H; [exact H|].
  intros s a e0. apply try_feature_throws.
Qed.

Lemma tensor2d_throws X e : Tf.tensor2d X = Throw e -> e = TfShapeError.
Proof.
  unfold Tf.tensor2d. destruct X as [|row0 X]; [congruence|].
  destruct (Nat.eqb _ _); congruence.
Qed.

Lemma fit_rounds_throws c X y e :
  fit_rounds c X y = Throw e -> fit_exn e.
Proof.
  unfold fit_rounds. intros H.
  apply bind_Throw in H as [H | (tX & HtX & H)].
  - left. eapply tensor2d_throws; eauto.
  - unfold Ops.inferShape in H. rewrite HtX in H. simpl in H.
    eapply for_collect_throws in H; [exact H|].
    intros a e0. apply round_throws.
Qed.

(** Every round of [fit] is [round] run on the initial weights. *)
Lemma fit_rounds_round c X y rounds i r :
  fit_rounds c X y = Ok rounds -> rounds !! i = Some r ->
  exists tX, Tf.tensor2d X = Ok tX /\
    (i < nCls c)%nat /\
    round (initial_weights (Tf.rows tX)) tX y (Tf.cols tX) i = Ok r.
Proof.
  unfold fit_rounds. intros H Hi.
  apply bind_Ok in H as (tX & HtX & H).
  unfold Ops.inferShape in H. rewrite HtX in H. simpl in H.
  destruct (for_collect_lookup _ _ _ _ _ H Hi) as (a & Ha & Hr).
  exists tX. split; [exact HtX|].
  apply lookup_seq in Ha as [-> Hlt]. simpl in Hr. auto.
Qed.

(** ** The stubs: [predict], [toJSON], [fromJSON] *)

(** C1 (the code falls short of the claim): [predict] computes no score.
    For every ensemble and every input it returns [undefined], which is
    neither [+1] nor [-1]; so it does after [fit] on two separable
    samples. *)
Theorem predict_returns_undefined :
  (forall c X, predict c X = None) /\
  predict (fst (fit (new_AdaboostClassifier None) X2 y2)) X2 = None.
Proof. split; reflexivity. Qed.

(** C8 (the code falls short of the claim): nothing is serialized and
    nothing is restored.  [toJSON] returns [undefined] for every ensemble,
    [fromJSON] leaves the instance as it was whatever state it is given,
    and the instance restored from the serialized form predicts no label:
    its [predict] returns [undefined] on every input. *)
Theorem serialization_is_a_stub :
  forall (TypeModelState : Type) (e fresh : AdaboostClassifier),
    toJSON TypeModelState e = None /\
    (forall state, fromJSON TypeModelState fresh state = fresh) /\
    (forall X' : list (list Q),
       predict (fromJSON TypeModelState fresh (toJSON TypeModelState e)) X'
       = None).
Proof. intros. repeat split. Qed.

(** ** [fit] and the instance *)

(** C7 (the code falls short of the claim): [fit] with three rounds on a
    valid input returns normally and has appended nothing: the stored
    ensemble has no member, not three. *)
Theorem fit_appends_no_member :
  let c := new_AdaboostClassifier (Some 3%nat) in
  fit c X2 y2 = (c, Ok tt) /\ length (cls (fst (fit c X2 y2))) = 0%nat.
Proof. vm_compute. split; reflexivity. Qed.

(** C9, as stated, fails: with five rows in [X] and four labels in [y],
    [fit] returns normally. *)
Lemma fit_accepts_shape_mismatch :
  length X5 = 5%nat /\ length y4 = 4%nat /\
  snd (fit (new_AdaboostClassifier None) X5 y4) = Ok tt.
Proof. vm_compute. repeat split; reflexivity. Qed.

(** No statement of [fit] writes a field: the instance after the call is
    the instance before it, and an exception of [fit] is one of
    tensorflow or of the empty [reduce]. *)
Lemma fit_leaves_instance_unchanged :
  forall c X y,
    fst (fit c X y) = c /\
    (snd (fit c X y) = Ok tt \/
     snd (fit c X y) = Throw TfShapeError \/
     snd (fit c X y) = Throw ReduceOfEmptyArray) /\
    (length X < 1 -> snd (fit c X y) = Throw TfShapeError)%nat.
Proof.
  intros c X y. split; [reflexivity|]. split.
  - simpl. destruct (fit_rounds c X y) as [rounds|e] eqn:H; simpl.
    + left. reflexivity.
    + right. apply fit_rounds_throws in H as [-> | ->]; auto.
  - intros Hn. destruct X; [reflexivity | simpl in Hn; lia].
Qed.

(** ** The search of one round *)

Local Open Scope Q_scope.

Lemma ltb_lt a b : ltb a b = true <-> a < b.
Proof.
  unfold ltb. rewrite negb_true_iff. split; intros H.
  - apply Qnot_le_lt. intros Hle. apply Qle_bool_iff in Hle. congruence.
  - destruct (Qle_bool b a) eqn:E; [|reflexivity].
    apply Qle_bool_iff in E. exfalso. eapply Qlt_not_le; eauto.
Qed.

Lemma ltb_ge a b : ltb a b = false <-> b <= a.
Proof.
  unfold ltb. rewrite negb_false_iff. apply Qle_bool_iff.
Qed.

(** The labels of a threshold do not depend on the samples: they are all
    [-1] when the threshold is above 1, and all [+1] otherwise. *)
Lemma prediction_constant ny t :
  prediction ny t = repeat (if ltb 1 t then -1 else 1) ny.
Proof.
  unfold prediction, Ops.reshape, Tf.ones.
  induction ny as [|ny IH]; simpl; [reflexivity | now rewrite IH].
Qed.

(** Whenever a threshold is saved, the feature index saved with it is the
    number of the round. *)
Lemma try_threshold_featureIndex i w y clf minError t clf' minError' :
  try_threshold i w y (clf, minError) t = Ok (clf', minError') ->
  (clf' = clf /\ minError' = minError) \/
  (featureIndex clf' = Some i /\ threshold clf' = Some t).
Proof.
  unfold try_threshold. intros H.
  apply bind_Ok in H as ([p error] & _ & H).
  destruct (lt_ext error minError); injection H as <- <-; auto.
Qed.

Lemma round_featureIndex w tX y m i clf minError :
  round w tX y m i = Ok (clf, minError) ->
  featureIndex clf = None \/ featureIndex clf = Some i.
Proof.
  unfold round. intros H.
  apply bind_Ok in H as ([clf0 minError0] & H & Hret).
  injection Hret as <- <-. simpl.
  set (P := fun st : DecisionStump * ext =>
              featureIndex (fst st) = None \/ featureIndex (fst st) = Some i).
  change (P (clf0, minError0)).
  assert (H0 : P (new_DecisionStump, Infinity)) by (left; reflexivity).
  apply (for_each_invariant P (try_feature i w tX y)) with (2 := H0) (3 := H).
  intros st j st' Hst Hj. unfold try_feature in Hj.
  apply bind_Ok in Hj as (vals & _ & Hj).
  apply (for_each_invariant P (try_threshold i w y)) with (2 := Hst) (3 := Hj).
  intros [c1 e1] t [c2 e2] H1 H2. unfold P in *. simpl in *.
  apply try_threshold_featureIndex in H2 as [[-> _] | [H2 _]]; auto.
Qed.

(** C2 (the code falls short of the claim): on two samples of two features
    and three rounds, the feature index recorded is the number of the round
    (0, 1, then 2, where the features are 0 and 1), and the stump selected
    has weighted error 1/2, although the stump on feature 0 with threshold 1
    and polarity +1 has weighted error 0. *)
Theorem featureIndex_is_round_number :
  selected_rounds (fit_rounds (new_AdaboostClassifier (Some 3%nat)) X2 y2)
  = Ok [(1%Z, Some 0%nat, Some 1, Fin (1 # 2));
        (1%Z, Some 1%nat, Some 1, Fin (1 # 2));
        (1%Z, Some 2%nat, Some 1, Fin (1 # 2))] /\
  Spec.weightedError (initial_weights 2)
    (map (Spec.stumpPrediction 1 0 1) X2) y2 == 0.
Proof. split; vm_compute; reflexivity. Qed.

(** C3 (the code falls short of the claim): the labels the code gives at a
    threshold are the same for every sample, whatever its feature value.
    At threshold 1, evaluated for feature 1, the second of the two samples
    has feature value 0 and is labelled [+1], where the stump rule gives
    [-1]; the weighted error is the sum of the weights of the samples whose
    label differs from [y], here 1/2 and not 0. *)
Theorem prediction_ignores_feature_value :
  (let* tensorX := Tf.tensor2d X2 in
   let* featureValues := Tf.slice_data tensorX 1 in
   Ok (Lodash.uniq (Lodash.flattenDeep featureValues))) = Ok [1] /\
  prediction (length y2) 1 = [1; 1] /\
  map (Spec.stumpPrediction 1 1 1) X2 = [1; -1] /\
  weighted_error (initial_weights 2) y2 1 = Ok (1 # 2) /\
  Spec.weightedError (initial_weights 2)
    (map (Spec.stumpPrediction 1 1 1) X2) y2 == 0.
Proof. repeat split; vm_compute; reflexivity. Qed.

(** C5: when the weighted error [e] of a threshold, computed with polarity
    [+1], exceeds 1/2, the candidate has polarity [-1] and error [1 - e];
    it is what the search records when it is below the smallest error so
    far, the stump being left as it was otherwise. *)
Theorem polarity_flip :
  forall (w y : list Q) (t e : Q) (i : nat) (clf : DecisionStump)
         (minError : ext),
    weighted_error w y t = Ok e -> 1 # 2 < e ->
    candidate w y t = Ok ((-1)%Z, 1 - e) /\
    try_threshold i w y (clf, minError) t =
      if lt_ext (1 - e) minError
      then Ok ({| polarity := -1; featureIndex := Some i;
                  threshold := Some t; alpha := alpha clf |}, Fin (1 - e))
      else Ok (clf, minError).
Proof.
  intros w y t e i clf minError He Hlt.
  assert (Hc : candidate w y t = Ok ((-1)%Z, 1 - e)).
  { unfold candidate. rewrite He. simpl.
    apply ltb_lt in Hlt. rewrite Hlt. reflexivity. }
  split; [exact Hc|].
  unfold try_threshold. rewrite Hc. simpl.
  destruct (lt_ext (1 - e) minError); reflexivity.
Qed.

(** The scenario of C5: ten samples of weight 1/10, nine of them
    misclassified by the raw polarity.  The error 9/10 is recorded as 1/10
    with polarity [-1]. *)
Lemma polarity_flip_witness :
  exists e : Q,
    weighted_error (initial_weights 10) y10 1 = Ok e /\ e == 9 # 10 /\
    candidate (initial_weights 10) y10 1 = Ok ((-1)%Z, 1 - e) /\
    1 - e == 1 # 10 /\
    try_threshold 0 (initial_weights 10) y10 (new_DecisionStump, Infinity) 1 =
      Ok ({| polarity := -1; featureIndex := Some 0%nat;
             threshold := Some 1; alpha := None |}, Fin (1 - e)).
Proof.
  exists (900000000 # 1000000000).
  assert (He : weighted_error (initial_weights 10) y10 1
               = Ok (900000000 # 1000000000)) by (vm_compute; reflexivity).
  assert (Hlt : 1 # 2 < 900000000 # 1000000000) by reflexivity.
  destruct (polarity_flip _ _ _ _ 0%nat new_DecisionStump Infinity He Hlt)
    as [Hc Ht].
  split; [exact He|]. split; [reflexivity|]. split; [exact Hc|].
  split; [reflexivity|]. exact Ht.
Defined.

(** ** The error of a round lies between 0 and 1/2 *)

Lemma fold_left_Qplus l x : fold_left Qplus l x == x + Qsum l.
Proof.
  revert x. induction l as [|a l IH]; intros x.
  - cbn [fold_left Qsum]. ring.
  - cbn [fold_left]. rewrite IH. cbn [Qsum]. ring.
Qed.

Lemma Qsum_nonneg l : Forall (fun x => 0 <= x) l -> 0 <= Qsum l.
Proof.
  induction 1 as [|a l Ha _ IH]; cbn [Qsum] in *; lra.
Qed.

Lemma Qsum_filter_from (keep : Q -> nat -> bool) k l :
  Forall (fun x => 0 <= x) l ->
  0 <= Qsum (filter_from keep k l) <= Qsum l.
Proof.
  intros Hl. revert k. induction Hl as [|a l Ha _ IH]; intros k;
    cbn [filter_from Qsum].
  - lra.
  - specialize (IH (S k)). destruct (keep a k); cbn [Qsum] in *; lra.
Qed.

Lemma weighted_error_bounds w y t e :
  Forall (fun x => 0 <= x) w ->
  weighted_error w y t = Ok e -> 0 <= e <= Qsum w.
Proof.
  intros Hw. unfold weighted_error, filter_index, reduce_sum.
  set (keep := fun (_ : Q) (index : nat) => _).
  pose proof (Qsum_filter_from keep 0 w Hw) as Hb.
  destruct (filter_from keep 0 w) as [|x l] eqn:E; [discriminate|].
  intros H. injection H as <-. rewrite fold_left_Qplus.
  cbn [Qsum] in Hb. lra.
Qed.

Lemma candidate_bounds w y t p e :
  weights_ok w -> candidate w y t = Ok (p, e) -> 0 <= e <= 1 # 2.
Proof.
  intros [Hw Hs] H. unfold candidate in H.
  apply bind_Ok in H as (e0 & He0 & H).
  apply weighted_error_bounds in He0; [|exact Hw].
  destruct (ltb (1 # 2) e0) eqn:E; injection H as <- <-.
  - apply ltb_lt in E. lra.
  - apply ltb_ge in E. lra.
Qed.

Lemma try_threshold_minError i w y st t st' :
  weights_ok w -> minError_ok (snd st) ->
  try_threshold i w y st t = Ok st' -> minError_ok (snd st').
Proof.
  intros Hw Hst H. destruct st as [clf minError]. unfold try_threshold in H.
  apply bind_Ok in H as ([p e] & Hc & H).
  apply candidate_bounds in Hc; [|exact Hw].
  destruct (lt_ext e minError); injection H as <-; simpl; auto.
Qed.

Lemma round_minError w tX y m i clf minError :
  weights_ok w ->
  round w tX y m i = Ok (clf, minError) ->
  minError_ok minError /\ alpha clf = Some (stump_alpha minError).
Proof.
  intros Hw H. unfold round in H.
  apply bind_Ok in H as ([clf0 minError0] & H & Hret).
  injection Hret as <- <-. split; [|reflexivity].
  set (P := fun st : DecisionStump * ext => minError_ok (snd st)).
  change (P (clf0, minError0)).
  assert (H0 : P (new_DecisionStump, Infinity)) by exact I.
  apply (for_each_invariant P (try_feature i w tX y)) with (2 := H0) (3 := H).
  intros st j st' Hst Hj. unfold try_feature in Hj.
  apply bind_Ok in Hj as (vals & _ & Hj).
  apply (for_each_invariant P (try_threshold i w y)) with (2 := Hst) (3 := Hj).
  intros s t s' Hs Ht. unfold P in *. eapply try_threshold_minError; eauto.
Qed.

Lemma Qsum_repeat v n : Qsum (repeat v n) == inject_Z (Z.of_nat n) * v.
Proof.
  induction n as [|n IH].
  - cbn [repeat Qsum Z.of_nat]. change (inject_Z 0) with 0. ring.
  - rewrite Nat2Z.inj_succ. unfold Z.succ. rewrite inject_Z_plus.
    cbn [repeat Qsum]. rewrite IH. ring.
Qed.

Lemma initial_weights_ok n : weights_ok (initial_weights n).
Proof.
  unfold initial_weights, Tf.fill. destruct n as [|n].
  - split; simpl; [constructor | lra].
  - set (N := inject_Z (Z.of_nat (S n))).
    assert (HN : 0 < N).
    { unfold N. change 0 with (inject_Z 0). rewrite <- Zlt_Qlt. lia. }
    assert (Hv : 0 <= 1 / N).
    { apply Qle_shift_div_l; [exact HN | lra]. }
    split.
    + apply List.Forall_forall. intros x Hx. apply repeat_spec in Hx. subst x. exact Hv.
    + rewrite Qsum_repeat. fold N.
      assert (E : N * (1 / N) == 1) by (field; lra). rewrite E. lra.
Qed.

(** ** The confidence coefficient *)

Lemma Q2R_eps : Q2R eps = (/ 10000000000)%R.
Proof. unfold eps, Q2R. simpl. lra. Qed.




(** ** The weights *)

Lemma alpha_quarter_positive :
  (0 < Spec.alpha false (Q2R eps) (Q2R (1 # 4)))%R.
Proof.
  unfold Spec.alpha. rewrite Q2R_eps.
  replace (Q2R (1 # 4)) with (/ 4)%R by (unfold Q2R; simpl; lra).
  set (d := (/ 4 + / 10000000000)%R).
  assert (Hd : (0 < d)%R) by (unfold d; lra).
  assert (Harg : (1 < (1 - / 4 + 0) / d)%R).
  { replace 1%R with (d * / d)%R at 1 by (field; lra).
    unfold Rdiv. apply Rmult_lt_compat_r.
    - apply Rinv_0_lt_compat. exact Hd.
    - unfold d. lra. }
  apply (ln_increasing 1) in Harg; [|lra]. rewrite ln_1 in Harg. lra.
Qed.

(** C4 (the code falls short of the claim): the weights start at [1/n],
    positive and summing to 1, and no round changes them.  On four samples
    of which the stump of the first round misclassifies the last, the
    second round computes the same error 1/4 from the same weights, whereas
    the update of the claim gives the misclassified sample a weight above
    1/4 and above that of the others. *)
Theorem weights_never_updated :
  initial_weights 4 = [1 # 4; 1 # 4; 1 # 4; 1 # 4] /\
  selected_rounds (fit_rounds (new_AdaboostClassifier (Some 2%nat)) X4 y4')
  = Ok [(1%Z, Some 0%nat, Some 1, Fin (1 # 4));
        (1%Z, Some 1%nat, Some 1, Fin (1 # 4))] /\
  let next :=
    Spec.nextWeights (Spec.alpha false (Q2R eps) (Q2R (1 # 4)))
      (map Q2R (initial_weights 4)) (map Q2R y4') (map Q2R (prediction 4 1)) in
  (nth 0 next 0 < nth 3 next 0 /\ / 4 < nth 3 next 0)%R.
Proof.
  split; [vm_compute; reflexivity|].
  split; [vm_compute; reflexivity|].
  pose proof alpha_quarter_positive as Ha.
  set (a := Spec.alpha false (Q2R eps) (Q2R (1 # 4))) in *.
  assert (Hw : map Q2R (initial_weights 4) = [/ 4; / 4; / 4; / 4]%R).
  { replace (initial_weights 4) with [1 # 4; 1 # 4; 1 # 4; 1 # 4]
      by (vm_compute; reflexivity).
    simpl. repeat f_equal; unfold Q2R; simpl; lra. }
  assert (Hy : map Q2R y4' = [1; 1; 1; -1]%R).
  { unfold y4'. simpl. repeat f_equal; unfold Q2R; simpl; lra. }
  assert (Hp : map Q2R (prediction 4 1) = [1; 1; 1; 1]%R).
  { replace (prediction 4 1) with [1; 1; 1; 1] by (vm_compute; reflexivity).
    simpl. repeat f_equal; unfold Q2R; simpl; lra. }
  rewrite Hw, Hy, Hp. unfold Spec.nextWeights. cbn [Spec.reweigh Spec.Rsum map nth].
  replace (- a * 1 * 1)%R with (- a)%R by ring.
  replace (- a * -1 * 1)%R with a by ring.
  pose proof (exp_pos (- a)) as Hneg.
  assert (Hlt : (exp (- a) < exp a)%R) by (apply exp_increasing; lra).
  set (u := (/ 4 * exp (- a))%R) in *.
  set (v := (/ 4 * exp a)%R) in *.
  assert (Hu : (0 < u)%R) by (unfold u; lra).
  assert (Huv : (u < v)%R) by (unfold u, v; lra).
  set (total := (u + (u + (u + (v + 0))))%R).
  assert (HS : (0 < total)%R) by (unfold total; lra).
  split.
  - unfold Rdiv. apply Rmult_lt_compat_r; [apply Rinv_0_lt_compat; exact HS | exact Huv].
  - apply Rmult_lt_reg_r with (r := total); [exact HS|].
    unfold Rdiv. rewrite Rmult_assoc, Rinv_l by lra. unfold total. lra.
Qed.

(** ** The Binarizer: writes through the shared rows *)

Section BinarizerFacts.

Import Binarizer.

Variable b : Binarizer.

Local Abbreviation f := (binarize_row (threshold b)).

Lemma alter_known (h : heap) r items (g : list value -> list value) :
  h !! r = Some items -> alter g r h = <[r := g items]> h.
Proof.
  intros Hr. apply map_eq. intros i. destruct (decide (r = i)) as [->|Hne].
  - rewrite lookup_alter_eq, lookup_insert_eq, Hr. reflexivity.
  - rewrite lookup_alter_ne, lookup_insert_ne by exact Hne. reflexivity.
Qed.

(** An assignment leaves the length of every array as it is. *)
Lemma set2_size (h : heap) _X row column x v :
  size (set2 h _X row column x) v = size h v.
Proof.
  unfold set2. destruct (get h _X row) as [[q|r|]|]; try reflexivity.
  destruct v as [q|l|]; try reflexivity. simpl.
  destruct (decide (r = l)) as [->|Hne].
  - rewrite lookup_alter_eq. destruct (h !! l); simpl; [|reflexivity].
    apply length_insert.
  - rewrite lookup_alter_ne by exact Hne. reflexivity.
Qed.

(** The loop over the columns of one row: the items from [length pre] on
    are read as numbers and overwritten, one by one. *)
Lemma transform_items_run l l' outer row r :
  l ≠ r -> l' ≠ r -> outer !! row = Some (VRef r) ->
  forall (suf : list Q) (pre : list value) (h : heap),
    h !! l = Some outer -> h !! l' = Some outer ->
    h !! r = Some (pre ++ (VNum <$> suf)) ->
    for_heap (transform_item b (VRef l) (VRef l') row)
      (seq (length pre) (length suf)) h
    = (<[r := pre ++ f (VNum <$> suf)]> h, Ok tt).
Proof.
  intros Hl Hl' Hrow suf.
  induction suf as [|q suf IH]; intros pre h Hhl Hhl' Hhr.
  - simpl. rewrite insert_id; [reflexivity | exact Hhr].
  - cbn [length seq for_heap].
    unfold transform_item at 1. unfold get2, get. rewrite Hhl. simpl.
    rewrite Hrow, Hhr. simpl.
    rewrite list_lookup_middle by reflexivity.
    unfold set2, get. rewrite Hhl'. simpl. rewrite Hrow.
    rewrite (alter_known h r _ _ Hhr).
    set (v := VNum (binarize (threshold b) q)).
    assert (Hins : <[length pre := v]> (pre ++ (VNum <$> q :: suf))
                   = (pre ++ [v]) ++ (VNum <$> suf)).
    { rewrite <- (Nat.add_0_r (length pre)), insert_app_r.
      simpl. rewrite <- app_assoc. reflexivity. }
    rewrite Hins.
    replace (S (length pre)) with (length (pre ++ [v]))
      by (rewrite length_app; simpl; lia).
    rewrite IH.
    + rewrite insert_insert_eq. rewrite <- app_assoc. reflexivity.
    + rewrite lookup_insert_ne by auto. exact Hhl.
    + rewrite lookup_insert_ne by auto. exact Hhl'.
    + apply lookup_insert_eq.
Qed.

(** The loop body for one row binarizes the array the row refers to. *)
Lemma transform_row_run l l' (rs : list nat) row r (qs : list Q) (h : heap) :
  l ≠ r -> l' ≠ r -> rs !! row = Some r ->
  h !! l = Some (VRef <$> rs) -> h !! l' = Some (VRef <$> rs) ->
  h !! r = Some (VNum <$> qs) ->
  transform_row b (VRef l) (VRef l') row h = (alter f r h, Ok tt).
Proof.
  intros Hl Hl' Hrow Hhl Hhl' Hhr.
  assert (Hout : (VRef <$> rs) !! row = Some (VRef r)).
  { rewrite list_lookup_fmap, Hrow. reflexivity. }
  unfold transform_row, get. rewrite Hhl. simpl. rewrite Hout.
  unfold size. rewrite Hhr. simpl. rewrite length_fmap.
  pose proof (transform_items_run l l' _ row r Hl Hl' Hout qs [] h
                Hhl Hhl' Hhr) as Hrun.
  cbn [length app] in Hrun. rewrite Hrun.
  rewrite (alter_known h r _ _ Hhr). reflexivity.
Qed.

(** The loop over the rows binarizes the arrays of the rows in turn. *)
Lemma transform_rows_run l l' (rs : list nat) :
  l ∉ rs -> l' ∉ rs ->
  forall (suf pre : list nat) (h : heap),
    rs = pre ++ suf ->
    h !! l = Some (VRef <$> rs) -> h !! l' = Some (VRef <$> rs) ->
    (forall r, r ∈ suf -> exists qs : list Q, h !! r = Some (VNum <$> qs)) ->
    for_heap (transform_row b (VRef l) (VRef l'))
      (seq (length pre) (length suf)) h
    = (foldl (fun h r => alter f r h) h suf, Ok tt).
Proof.
  intros Hl Hl' suf.
  induction suf as [|r suf IH]; intros pre h Hrs Hhl Hhl' Hnum.
  - reflexivity.
  - cbn [length seq for_heap foldl].
    assert (Hin : r ∈ rs).
    { rewrite Hrs. apply elem_of_app. right. apply elem_of_cons. auto. }
    assert (Hlr : l ≠ r) by (intros ->; contradiction).
    assert (Hlr' : l' ≠ r) by (intros ->; contradiction).
    destruct (Hnum r) as [qs Hqs]; [apply elem_of_cons; auto|].
    assert (Hrow : rs !! length pre = Some r).
    { rewrite Hrs. apply list_lookup_middle. reflexivity. }
    rewrite (transform_row_run l l' rs _ r qs h Hlr Hlr' Hrow Hhl Hhl' Hqs).
    replace (S (length pre)) with (length (pre ++ [r]))
      by (rewrite length_app; simpl; lia).
    apply IH.
    + rewrite Hrs, <- app_assoc. reflexivity.
    + rewrite lookup_alter_ne by auto. exact Hhl.
    + rewrite lookup_alter_ne by auto. exact Hhl'.
    + intros r' Hr'. destruct (decide (r = r')) as [<-|Hne].
      * exists (binarize (threshold b) <$> qs).
        rewrite lookup_alter_eq, Hqs. simpl. f_equal.
        unfold f, binarize_row. rewrite <- !list_fmap_compose. reflexivity.
      * rewrite lookup_alter_ne by exact Hne. apply Hnum.
        apply elem_of_cons. auto.
Qed.

(** Arrays that are not rows are left alone. *)
Lemma binarized_lookup_other (rs : list nat) l (h : heap) :
  l ∉ rs -> foldl (fun h r => alter f r h) h rs !! l = h !! l.
Proof.
  revert h. induction rs as [|r rs IH]; intros h Hl; simpl.
  - reflexivity.
  - apply not_elem_of_cons in Hl as [Hne Hl].
    rewrite IH by exact Hl. apply lookup_alter_ne. auto.
Qed.

(** A row that occurs once is binarized once. *)
Lemma binarized_lookup_row (rs : list nat) r (h : heap) :
  NoDup rs -> r ∈ rs ->
  foldl (fun h r => alter f r h) h rs !! r = f <$> h !! r.
Proof.
  intros Hnd. revert h. induction Hnd as [|r0 rs Hr0 Hnd IH]; intros h Hr.
  - apply elem_of_nil in Hr. contradiction.
  - simpl. destruct (decide (r0 = r)) as [->|Hne].
    + rewrite binarized_lookup_other by exact Hr0. apply lookup_alter_eq.
    + apply elem_of_cons in Hr as [->|Hr]; [contradiction|].
      rewrite IH by exact Hr. rewrite lookup_alter_ne by exact Hne.
      reflexivity.
Qed.

End BinarizerFacts.

Section BinarizerCopy.

Import Binarizer.

Lemma numeric_matrix_fresh (h : heap) l (rs : list nat) :
  numeric_matrix h l rs ->
  fresh (dom h) ≠ l /\ (fresh (dom h) ∉ rs) /\ h !! (fresh (dom h)) = None.
Proof.
  intros [Hl Hnum].
  assert (Hnone : h !! (fresh (dom h)) = None).
  { apply not_elem_of_dom. apply is_fresh. }
  split; [|split; [|exact Hnone]].
  - intros E. rewrite E in Hnone. congruence.
  - intros Hin. destruct (Hnum _ Hin) as [qs Hqs]. congruence.
Qed.

Lemma numeric_matrix_not_row (h : heap) l (rs : list nat) :
  numeric_matrix h l rs -> l ∉ rs.
Proof.
  intros [Hl Hnum] Hin. destruct (Hnum _ Hin) as [qs Hqs].
  rewrite Hl in Hqs. injection Hqs as Hqs.
  destruct rs as [|r rs]; [apply elem_of_nil in Hin; contradiction|].
  destruct qs; discriminate.
Qed.

(** C10: with [copy = true], [transform] of a numeric matrix with at
    least one row returns a new array that holds the very rows of the
    input: the caller's matrix and the returned one have the same entries
    after the call, and when the rows are distinct arrays these entries
    are the binarized values of the input, not the values it had.  A
    matrix without rows makes [transform] throw. *)
Theorem transform_copy_writes_into_input :
  forall (b : Binarizer) (h : heap) (l : nat) (rs : list nat),
    copy b = true ->
    numeric_matrix h l rs ->
    (rs = [] -> snd (transform b (VRef l) h) = Throw XCannotBeNull) /\
    (rs ≠ [] ->
     exists (h' : heap) (l' : nat),
       transform b (VRef l) h = (h', Ok (VRef l')) /\
       l' ≠ l /\ h !! l' = None /\
       h' !! l = Some (VRef <$> rs) /\
       h' !! l' = Some (VRef <$> rs) /\
       read_matrix h' (VRef l) = read_matrix h' (VRef l') /\
       (NoDup rs ->
        read_matrix h' (VRef l)
        = binarize_row (threshold b) <$> read_matrix h (VRef l))).
Proof.
  intros b h l rs Hcopy Hm.
  destruct (numeric_matrix_fresh h l rs Hm) as (Hne & Hnotin & Hnone).
  pose proof (numeric_matrix_not_row h l rs Hm) as Hlrs.
  destruct Hm as [Hl Hnum].
  set (l' := fresh (dom h)) in *.
  set (h0 := <[l' := VRef <$> rs]> h).
  assert (Hh0l : h0 !! l = Some (VRef <$> rs)).
  { unfold h0. rewrite lookup_insert_ne by exact Hne. exact Hl. }
  assert (Hh0l' : h0 !! l' = Some (VRef <$> rs)) by apply lookup_insert_eq.
  assert (Hstart : transform b (VRef l) h =
            if Nat.eqb (length rs) 0 then (h0, Throw XCannotBeNull)
            else match for_heap (transform_row b (VRef l) (VRef l'))
                         (seq 0 (length rs)) h0 with
                 | (h', Ok _) => (h', Ok (VRef l'))
                 | (h', Throw e) => (h', Throw e)
                 end).
  { unfold transform. rewrite Hcopy. unfold clone. rewrite Hl. simpl.
    fold l' h0. unfold isEmpty, size. rewrite Hh0l. simpl.
    rewrite length_fmap. reflexivity. }
  split.
  - intros ->. rewrite Hstart. reflexivity.
  - intros Hrs. rewrite Hstart.
    destruct rs as [|r0 rs0] eqn:Ers; [contradiction|]. rewrite <- Ers in *.
    replace (Nat.eqb (length rs) 0) with false by (rewrite Ers; reflexivity).
    assert (Hnum0 : forall r, r ∈ rs ->
              exists qs : list Q, h0 !! r = Some (VNum <$> qs)).
    { intros r Hr. destruct (Hnum r Hr) as [qs Hqs]. exists qs.
      unfold h0. rewrite lookup_insert_ne; [exact Hqs|].
      intros E. apply Hnotin. rewrite E. exact Hr. }
    pose proof (transform_rows_run b l l' rs Hlrs Hnotin rs [] h0
                  eq_refl Hh0l Hh0l' Hnum0) as Hrun.
    cbn [length] in Hrun. rewrite Hrun.
    set (h' := foldl _ h0 rs) in *.
    assert (Hh'l : h' !! l = Some (VRef <$> rs)).
    { unfold h'. rewrite binarized_lookup_other by exact Hlrs. exact Hh0l. }
    assert (Hh'l' : h' !! l' = Some (VRef <$> rs)).
    { unfold h'. rewrite binarized_lookup_other by exact Hnotin. exact Hh0l'. }
    exists h', l'. split; [reflexivity|].
    split; [exact Hne|]. split; [exact Hnone|].
    split; [exact Hh'l|]. split; [exact Hh'l'|]. split.
    + unfold read_matrix, read_row. rewrite Hh'l, Hh'l'. reflexivity.
    + intros Hnd. unfold read_matrix. unfold read_row at 2 4.
      rewrite Hh'l, Hl. simpl.
      rewrite <- !list_fmap_compose. apply list_fmap_ext.
      intros i r Hr.
      simpl. assert (Hin : r ∈ rs) by (eapply list_elem_of_lookup_2; eauto).
      unfold h'. rewrite binarized_lookup_row by assumption.
      unfold h0. rewrite lookup_insert_ne.
      * destruct (Hnum r Hin) as [qs ->]. reflexivity.
      * intros E. apply Hnotin. rewrite E. exact Hin.
Qed.

Lemma transform_copy_writes_into_input_witness :
  exists (h' : heap) (l' : nat),
    transform (new_Binarizer None None) (VRef 0) hB = (h', Ok (VRef l')) /\
    l' ≠ 0%nat /\
    read_matrix h' (VRef 0) = read_matrix h' (VRef l') /\
    read_matrix h' (VRef 0)
    = [VNum <$> [1; 0; 1]; VNum <$> [1; 0; 0]; VNum <$> [0; 1; 0]]%Q.
Proof.
  assert (Hm : numeric_matrix hB 0 [1; 2; 3]%nat).
  { split; [reflexivity|]. intros r Hr.
    apply elem_of_cons in Hr as [->|Hr]; [exists [1; -1; 2]%Q; reflexivity|].
    apply elem_of_cons in Hr as [->|Hr]; [exists [2; 0; 0]%Q; reflexivity|].
    apply elem_of_cons in Hr as [->|Hr]; [exists [0; 1; -1]%Q; reflexivity|].
    apply elem_of_nil in Hr. contradiction. }
  assert (Hnd : NoDup [1; 2; 3]%nat).
  { apply (bool_decide_unpack (NoDup [1; 2; 3]%nat)). vm_compute. exact I. }
  destruct (transform_copy_writes_into_input (new_Binarizer None None)
              hB 0%nat [1; 2; 3]%nat eq_refl Hm) as [_ Hrun].
  destruct Hrun as (h' & l' & Ht & Hne & _ & _ & _ & Hsame & Hbin);
    [discriminate|].
  exists h', l'. split; [exact Ht|]. split; [exact Hne|].
  split; [exact Hsame|]. rewrite (Hbin Hnd). vm_compute. reflexivity.
Defined.

End BinarizerCopy.

(** ** More on the search of a round *)

Lemma for_each_app {A S} (body : S -> A -> result S) (l1 l2 : list A) (s : S) :
  for_each body (l1 ++ l2) s = Js.bind (for_each body l1 s) (for_each body l2).
Proof.
  revert s. induction l1 as [|a l1 IH]; intros s; simpl; [reflexivity|].
  destruct (body s a) as [s1|e]; simpl; [apply IH | reflexivity].
Qed.

(** The two nested loops of a round are one loop over its thresholds. *)
Lemma round_loops_flat i w tX y :
  forall js st st',
    for_each (try_feature i w tX y) js st = Ok st' ->
    exists tss,
      for_collect (feature_thresholds tX) js = Ok tss /\
      for_each (try_threshold i w y) (concat tss) st = Ok st'.
Proof.
  induction js as [|j js IH]; intros st st' H; simpl in H.
  - injection H as <-. exists []. split; reflexivity.
  - apply bind_Ok in H as (st1 & Hj & H).
    unfold try_feature in Hj. apply bind_Ok in Hj as (vals & Hvals & Hj).
    destruct (IH _ _ H) as (tss & Htss & Hrun).
    exists (Lodash.uniq (Lodash.flattenDeep vals) :: tss). split.
    + simpl. unfold feature_thresholds at 1. rewrite Hvals. simpl.
      rewrite Htss. reflexivity.
    + simpl. rewrite for_each_app, Hj. exact Hrun.
Qed.

Lemma round_as_one_loop w tX y m i clf minError :
  round w tX y m i = Ok (clf, minError) ->
  exists ts clf0,
    round_thresholds tX m = Ok ts /\
    for_each (try_threshold i w y) ts (new_DecisionStump, Infinity)
    = Ok (clf0, minError) /\
    polarity clf = polarity clf0 /\ featureIndex clf = featureIndex clf0 /\
    threshold clf = threshold clf0 /\ alpha clf = Some (stump_alpha minError).
Proof.
  unfold round. intros H.
  apply bind_Ok in H as ([clf0 minError0] & H & Hret).
  injection Hret as <- <-.
  destruct (round_loops_flat _ _ _ _ _ _ _ H) as (tss & Htss & Hrun).
  exists (concat tss), clf0. unfold round_thresholds. rewrite Htss.
  repeat split; auto.
Qed.

Lemma search_holds_step i w y pre st t st' :
  search_holds i w y pre st ->
  try_threshold i w y st t = Ok st' ->
  search_holds i w y (pre ++ [t]) st'.
Proof.
  destruct st as [clf minError]. intros Hinv H. unfold try_threshold in H.
  apply bind_Ok in H as ([p error] & Hc & H).
  unfold search_holds in Hinv. simpl in Hinv.
  destruct minError as [|e]; simpl in H.
  - destruct Hinv as [-> ->]. injection H as <-.
    unfold search_holds. simpl. exists 0%nat, t, p.
    repeat split; auto.
    + destruct k' as [|k']; simpl in H; [|destruct k'; discriminate].
      injection H as <-. rewrite Hc in H0. injection H0 as <- <-. lra.
    + lia.
  - destruct Hinv as (k & tk & pk & Hk & Hck & Hp & Ht & Hi & Hmin).
    assert (Hklt : (k < length pre)%nat) by (eapply lookup_lt_Some; eauto).
    destruct (ltb error e) eqn:Hlt; injection H as <-.
    + apply ltb_lt in Hlt. unfold search_holds. simpl.
      exists (length pre), t, p.
      split; [apply list_lookup_middle; reflexivity|].
      repeat split; auto.
      * destruct (decide (k' < length pre)%nat) as [Hk'|Hk'].
        -- rewrite lookup_app_l in H by exact Hk'.
           destruct (Hmin _ _ _ _ H H0) as [Hle _]. lra.
        -- rewrite lookup_app_r in H by lia.
           destruct (k' - length pre)%nat as [|n] eqn:E; simpl in H;
             [|destruct n; discriminate].
           injection H as <-. rewrite Hc in H0. injection H0 as <- <-. lra.
      * intros Hk'. rewrite lookup_app_l in H by exact Hk'.
        destruct (Hmin _ _ _ _ H H0) as [Hle _]. lra.
    + apply ltb_ge in Hlt. unfold search_holds. simpl.
      exists k, tk, pk.
      split; [rewrite lookup_app_l by exact Hklt; exact Hk|].
      repeat split; auto.
      * destruct (decide (k' < length pre)%nat) as [Hk'|Hk'].
        -- rewrite lookup_app_l in H by exact Hk'.
           destruct (Hmin _ _ _ _ H H0) as [Hle _]. exact Hle.
        -- rewrite lookup_app_r in H by lia.
           destruct (k' - length pre)%nat as [|n] eqn:E; simpl in H;
             [|destruct n; discriminate].
           injection H as <-. rewrite Hc in H0. injection H0 as <- <-. exact Hlt.
      * intros Hk'. assert (Hk'' : (k' < length pre)%nat) by lia.
        rewrite lookup_app_l in H by exact Hk''.
        destruct (Hmin _ _ _ _ H H0) as [_ Hst]. auto.
Qed.

Lemma search_holds_loop i w y :
  forall suf pre st st',
    search_holds i w y pre st ->
    for_each (try_threshold i w y) suf st = Ok st' ->
    search_holds i w y (pre ++ suf) st'.
Proof.
  induction suf as [|t suf IH]; intros pre st st' Hinv H; simpl in H.
  - injection H as <-. rewrite app_nil_r. exact Hinv.
  - apply bind_Ok in H as (st1 & H1 & H).
    replace (pre ++ t :: suf) with ((pre ++ [t]) ++ suf)
      by (rewrite <- app_assoc; reflexivity).
    eapply IH; [|exact H]. eapply search_holds_step; eauto.
Qed.

(** X1: a round that ends with a finite error has selected, among all the
    thresholds it evaluated, one of smallest error after the polarity flip,
    and the first such in the order of evaluation; it stores that
    threshold and its polarity (and the round number as feature index). *)
Theorem round_selects_first_minimum :
  forall w tX y m i clf e,
    round w tX y m i = Ok (clf, Fin e) ->
    exists (ts : list Q) (k : nat) (t : Q),
      round_thresholds tX m = Ok ts /\ ts !! k = Some t /\
      candidate w y t = Ok (polarity clf, e) /\
      threshold clf = Some t /\ featureIndex clf = Some i /\
      forall (k' : nat) (t' : Q) (p' : Z) (e' : Q),
        ts !! k' = Some t' -> candidate w y t' = Ok (p', e') ->
        e <= e' /\ ((k' < k)%nat -> e < e').
Proof.
  intros w tX y m i clf e H.
  apply round_as_one_loop in H
    as (ts & clf0 & Hts & Hrun & Hp & Hf & Ht & _).
  assert (H0 : search_holds i w y [] (new_DecisionStump, Infinity))
    by (split; reflexivity).
  pose proof (search_holds_loop i w y ts [] _ _ H0 Hrun) as Hinv.
  simpl in Hinv. unfold search_holds in Hinv. simpl in Hinv.
  destruct Hinv as (k & t & p & Hk & Hc & Hp0 & Ht0 & Hi0 & Hmin).
  exists ts, k, t. rewrite Hp, Ht, Hf, Hp0.
  repeat split; auto; apply (Hmin _ _ _ _ H H1).
Qed.

(** Four samples of weight 1/4 with labels 1, 1, -1 and 0, and eight
    thresholds: those at most 1 have error 1/2, those above 1 have error
    1/4 once flipped.  The round keeps the threshold 2, the second it
    evaluates and the first of smallest error. *)
Lemma round_selects_first_minimum_witness :
  exists (clf : DecisionStump) (e : Q) (k : nat),
    round [1 # 4; 1 # 4; 1 # 4; 1 # 4]
      {| Tf.rows := 4; Tf.cols := 3;
         Tf.data := [1; 2; 3; 3; 0; 5; 0; 0; 0; 0; 0; 0] |}
      [1; 1; -1; 0] 3 0 = Ok (clf, Fin e) /\
    round_thresholds
      {| Tf.rows := 4; Tf.cols := 3;
         Tf.data := [1; 2; 3; 3; 0; 5; 0; 0; 0; 0; 0; 0] |} 3
    = Ok [1; 2; 3; 1; 2; 3; 0; 5] /\
    [1; 2; 3; 1; 2; 3; 0; 5] !! k = Some 2 /\
    candidate [1 # 4; 1 # 4; 1 # 4; 1 # 4] [1; 1; -1; 0] 2
    = Ok (polarity clf, e) /\
    threshold clf = Some 2 /\ polarity clf = (-1)%Z /\ e == 1 # 4 /\
    forall (k' : nat) (t' : Q) (p' : Z) (e' : Q),
      [1; 2; 3; 1; 2; 3; 0; 5] !! k' = Some t' ->
      candidate [1 # 4; 1 # 4; 1 # 4; 1 # 4] [1; 1; -1; 0] t' = Ok (p', e') ->
      e <= e' /\ ((k' < k)%nat -> e < e').
Proof.
  set (w := [1 # 4; 1 # 4; 1 # 4; 1 # 4]).
  set (tX := {| Tf.rows := 4; Tf.cols := 3;
                Tf.data := [1; 2; 3; 3; 0; 5; 0; 0; 0; 0; 0; 0] |}).
  set (y := [1; 1; -1; 0]).
  assert (Hr : exists clf e, round w tX y 3 0 = Ok (clf, Fin e)).
  { do 2 eexists. vm_compute. reflexivity. }
  destruct Hr as (clf & e & Hr).
  assert (Hsel : (threshold clf, polarity clf) = (Some 2, (-1)%Z)).
  { apply (f_equal (fun r => match r with
                             | Ok (c, _) => (threshold c, polarity c)
                             | Throw _ => (None, 0%Z)
                             end)) in Hr.
    vm_compute in Hr. symmetry. exact Hr. }
  injection Hsel as Hthr Hpol.
  assert (He : Fin e = Fin (16 # 64)).
  { apply (f_equal (fun r => match r with
                             | Ok (_, m) => m
                             | Throw _ => Infinity
                             end)) in Hr.
    vm_compute in Hr. symmetry. exact Hr. }
  injection He as He.
  destruct (round_selects_first_minimum w tX y 3%nat 0%nat clf e Hr)
    as (ts & k & t & Hts & Hk & Hc & Ht & _ & Hmin).
  assert (Ets : ts = [1; 2; 3; 1; 2; 3; 0; 5]).
  { vm_compute in Hts. injection Hts as <-. reflexivity. }
  subst ts. rewrite Hthr in Ht. injection Ht as <-.
  exists clf, e, k. split; [exact Hr|]. split; [reflexivity|].
  split; [exact Hk|]. split; [exact Hc|]. split; [exact Hthr|].
  split; [exact Hpol|]. split; [rewrite He; reflexivity | exact Hmin].
Defined.

(** ** Rounds, one like the other *)

Lemma for_collect_const {A B} (body : A -> result B) (b : B) (l : list A) :
  (forall a, body a = Ok b) ->
  for_collect body l = Ok (repeat b (length l)).
Proof.
  intros Hb. induction l as [|a l IH]; simpl; [reflexivity|].
  rewrite Hb, IH. reflexivity.
Qed.

(** X2: on data of a single feature (or of none), no threshold is ever
    evaluated: [fit] returns normally and every round leaves its stump
    with no feature index and no threshold, an infinite error and a
    coefficient that is not a number. *)
Theorem fit_single_feature_finds_no_stump :
  forall c X y tX,
    Tf.tensor2d X = Ok tX -> (Tf.cols tX <= 1)%nat ->
    fit_rounds c X y = Ok (repeat empty_round (nCls c)) /\
    fit c X y = (c, Ok tt).
Proof.
  intros c X y tX HtX Hm.
  assert (Hr : fit_rounds c X y = Ok (repeat empty_round (nCls c))).
  { unfold fit_rounds, Ops.inferShape. rewrite HtX. simpl.
    replace (repeat empty_round (nCls c))
      with (repeat empty_round (length (seq 0 (nCls c))))
      by (rewrite length_seq; reflexivity).
    apply for_collect_const.
    intros i. unfold round.
    destruct (Tf.cols tX) as [|[|m]]; [reflexivity| |lia].
    simpl. unfold try_feature, Tf.slice_data. simpl. reflexivity. }
  split; [exact Hr|]. unfold fit. rewrite Hr. reflexivity.
Qed.

Lemma fit_single_feature_finds_no_stump_witness :
  fit_rounds (new_AdaboostClassifier (Some 2%nat)) [[0]; [1]; [2]; [3]]
    [-1; -1; 1; 1]
  = Ok [empty_round; empty_round].
Proof.
  exact (proj1 (fit_single_feature_finds_no_stump
                  (new_AdaboostClassifier (Some 2%nat)) [[0]; [1]; [2]; [3]]
                  [-1; -1; 1; 1]
                  {| Tf.rows := 4; Tf.cols := 1; Tf.data := [0; 1; 2; 3] |}
                  eq_refl ltac:(simpl; lia))).
Defined.

Lemma for_each_Ok_each {A S} (body : S -> A -> result S) :
  forall l s s' a, for_each body l s = Ok s' -> In a l ->
    exists s1 s2, body s1 a = Ok s2.
Proof.
  induction l as [|a0 l IH]; intros s s' a H Hin; [contradiction|].
  simpl in H. apply bind_Ok in H as (s1 & H1 & H).
  destruct Hin as [->|Hin]; [eauto | eapply IH; eauto].
Qed.

(** X3: when [X] has more than [n + 1] columns for its [n] rows, [fit] with
    at least one round never returns normally: the slice of the first
    [n + 1] rows does not exist. *)
Theorem fit_throws_on_wide_matrix :
  forall c X y tX,
    Tf.tensor2d X = Ok tX -> (Tf.rows tX + 1 < Tf.cols tX)%nat ->
    (1 <= nCls c)%nat ->
    exists e, snd (fit c X y) = Throw e /\ fit_exn e.
Proof.
  intros c X y tX HtX Hwide Hn.
  destruct (fit_rounds c X y) as [rounds|e] eqn:Hfit.
  - exfalso. unfold fit_rounds, Ops.inferShape in Hfit.
    rewrite HtX in Hfit. simpl in Hfit.
    destruct (nCls c) as [|n]; [lia|]. simpl in Hfit.
    apply bind_Ok in Hfit as (r & Hr & _).
    unfold round in Hr. apply bind_Ok in Hr as (st & Hr & _).
    assert (Hin : In (Tf.rows tX + 1)%nat (seq 0 (Tf.cols tX))).
    { apply in_seq. lia. }
    destruct (for_each_Ok_each _ _ _ _ _ Hr Hin) as (s1 & s2 & Hj).
    unfold try_feature, Tf.slice_data in Hj.
    replace (Nat.leb (Tf.rows tX + 1) (Tf.rows tX)) with false in Hj.
    + discriminate.
    + symmetry. apply Nat.leb_gt. lia.
  - exists e. split.
    + unfold fit. simpl. rewrite Hfit. reflexivity.
    + eapply fit_rounds_throws; eauto.
Qed.

Lemma fit_throws_on_wide_matrix_witness :
  exists e, snd (fit (new_AdaboostClassifier None) [[1; 2; 3]] [1]) = Throw e.
Proof.
  destruct (fit_throws_on_wide_matrix (new_AdaboostClassifier None)
              [[1; 2; 3]] [1]
              {| Tf.rows := 1; Tf.cols := 3; Tf.data := [1; 2; 3] |}
              eq_refl ltac:(simpl; lia) ltac:(simpl; lia)) as (e & He & _).
  exists e. exact He.
Defined.

Lemma try_threshold_alike i i' w y st st' t :
  alike st st' ->
  runs_alike (try_threshold i w y st t) (try_threshold i' w y st' t).
Proof.
  destruct st as [clf m], st' as [clf' m'].
  intros (Hp & Ht & Ha & Hm). simpl in *. subst m'.
  unfold try_threshold. destruct (candidate w y t) as [[p error]|e]; simpl.
  - destruct (lt_ext error m); simpl; repeat split; auto.
  - reflexivity.
Qed.

Lemma for_each_alike {A} (body body' : DecisionStump * ext -> A -> result (DecisionStump * ext)) :
  (forall st st' a, alike st st' -> runs_alike (body st a) (body' st' a)) ->
  forall l st st', alike st st' ->
    runs_alike (for_each body l st) (for_each body' l st').
Proof.
  intros Hb. induction l as [|a l IH]; intros st st' Hst; simpl.
  - exact Hst.
  - specialize (Hb st st' a Hst).
    destruct (body st a) as [s1|e1], (body' st' a) as [s1'|e1']; simpl in *;
      try contradiction.
    + apply IH. exact Hb.
    + exact Hb.
Qed.

Lemma round_alike w tX y m i i' :
  runs_alike (round w tX y m i) (round w tX y m i').
Proof.
  unfold round.
  assert (H : runs_alike
            (for_each (try_feature i w tX y) (seq 0 m) (new_DecisionStump, Infinity))
            (for_each (try_feature i' w tX y) (seq 0 m) (new_DecisionStump, Infinity))).
  { apply for_each_alike; [|repeat split].
    intros st st' j Hst. unfold try_feature.
    destruct (Tf.slice_data tX j) as [vals|e]; simpl; [|reflexivity].
    apply for_each_alike; [|exact Hst].
    intros s s' t Hs. apply try_threshold_alike. exact Hs. }
  destruct (for_each (try_feature i w tX y) _ _) as [[c1 m1]|e1],
           (for_each (try_feature i' w tX y) _ _) as [[c2 m2]|e2];
    simpl in *; try contradiction; [|exact H].
  destruct H as (Hp & Ht & Ha & Hm). simpl in *. subst m2.
  repeat split; auto.
Qed.

(** X4: all the rounds of one call of [fit] select the same stump: the same
    polarity, threshold, coefficient and error; only the feature index
    recorded tells them apart. *)
Theorem rounds_select_alike :
  forall c X y rounds i i' r r',
    fit_rounds c X y = Ok rounds ->
    rounds !! i = Some r -> rounds !! i' = Some r' ->
    polarity (fst r) = polarity (fst r') /\
    threshold (fst r) = threshold (fst r') /\
    alpha (fst r) = alpha (fst r') /\
    snd r = snd r'.
Proof.
  intros c X y rounds i i' r r' Hfit Hi Hi'.
  destruct (fit_rounds_round _ _ _ _ _ _ Hfit Hi) as (tX & HtX & _ & Hr).
  destruct (fit_rounds_round _ _ _ _ _ _ Hfit Hi') as (tX' & HtX' & _ & Hr').
  rewrite HtX in HtX'. injection HtX' as <-.
  pose proof (round_alike (initial_weights (Tf.rows tX)) tX y (Tf.cols tX) i i')
    as H.
  rewrite Hr, Hr' in H. exact H.
Qed.

Lemma rounds_select_alike_witness :
  exists r0 r1 r2,
    fit_rounds (new_AdaboostClassifier (Some 3%nat)) X2 y2 = Ok [r0; r1; r2] /\
    polarity (fst r0) = polarity (fst r2) /\
    threshold (fst r0) = threshold (fst r2) /\
    alpha (fst r0) = alpha (fst r2) /\
    snd r0 = snd r2.
Proof.
  assert (Hfit : exists r0 r1 r2,
             fit_rounds (new_AdaboostClassifier (Some 3%nat)) X2 y2
             = Ok [r0; r1; r2]) by (do 3 eexists; vm_compute; reflexivity).
  destruct Hfit as (r0 & r1 & r2 & Hfit).
  exists r0, r1, r2. split; [exact Hfit|].
  exact (rounds_select_alike _ _ _ _ 0%nat 2%nat r0 r2 Hfit eq_refl eq_refl).
Defined.

(** ** The empty [reduce] *)

Lemma filter_from_nil {A} (keep : A -> nat -> bool) :
  forall (l : list A) k,
    filter_from keep k l = [] <->
    forall index a, l !! index = Some a -> keep a (k + index)%nat = false.
Proof.
  induction l as [|a0 l IH]; intros k; simpl.
  - split; [intros _ index a H; destruct index; discriminate | reflexivity].
  - destruct (keep a0 k) eqn:E.
    + split; [discriminate|]. intros H.
      specialize (H 0%nat a0 eq_refl). rewrite Nat.add_0_r in H. congruence.
    + rewrite IH. split; intros H index a Hl.
      * destruct index as [|index]; simpl in Hl.
        -- injection Hl as <-. rewrite Nat.add_0_r. exact E.
        -- rewrite Nat.add_succ_r. apply (H index a Hl).
      * specialize (H (S index) a Hl). rewrite Nat.add_succ_r in H. exact H.
Qed.

(** The error of a threshold is undefined exactly when its labels agree
    with [y] at every index of a weight. *)
Lemma weighted_error_throws_iff w y t :
  weighted_error w y t = Throw ReduceOfEmptyArray <->
  forall index, (index < length w)%nat ->
    strict_neq (y !! index) (prediction (length y) t !! index) = false.
Proof.
  unfold weighted_error, filter_index, reduce_sum, Tf.tensor1d_shape.
  set (keep := fun (_ : Q) (index : nat) => _).
  pose proof (filter_from_nil keep w 0) as Hnil.
  destruct (filter_from keep 0 w) as [|x l].
  - split; [intros _ | reflexivity].
    intros index Hlt. destruct (lookup_lt_is_Some_2 w index Hlt) as [a Ha].
    apply (proj1 Hnil eq_refl index a Ha).
  - split; [discriminate|]. intros H. exfalso.
    assert (Hn : x :: l = []); [|discriminate].
    apply Hnil. intros index a Ha. apply H. eapply lookup_lt_Some; eauto.
Qed.

Lemma firstn_length_app {A} (l r : list A) : firstn (length l) (l ++ r) = l.
Proof.
  induction l as [|a l IH]; simpl; [reflexivity | now rewrite IH].
Qed.

(** X5: [fit] cannot train on data that its first threshold fits: when the
    first value of the first row is a number the float32 tensor stores as
    it is, and the labels it gives as a threshold agree with [y] on every
    sample, the sum of the misclassified weights is a [reduce] of an empty
    array and [fit] throws its TypeError.  Labels that are all [+1], with
    that first value at most 1, are such data. *)
Theorem fit_throws_when_first_threshold_fits :
  forall c (t0 : Q) (row0 : list Q) (X' : list (list Q)) (y : list Q) tX,
    float32_value t0 ->
    Tf.tensor2d ((t0 :: row0) :: X') = Ok tX ->
    row0 <> [] -> (1 <= nCls c)%nat ->
    (forall index, (index < S (length X'))%nat ->
       strict_neq (y !! index) (prediction (length y) t0 !! index) = false) ->
    snd (fit c ((t0 :: row0) :: X') y) = Throw ReduceOfEmptyArray.
Proof.
  intros c t0 row0 X' y tX _ HtX Hrow0 Hn Hfits.
  set (X := (t0 :: row0) :: X') in *.
  assert (Hgoal : fit_rounds c X y = Throw ReduceOfEmptyArray);
    [|unfold fit; simpl; rewrite Hgoal; reflexivity].
  unfold fit_rounds, Ops.inferShape. rewrite HtX. cbn [Js.bind].
  destruct (nCls c) as [|n]; [lia|].
  assert (Hshape : Tf.rows tX = S (length X') /\
                   Tf.cols tX = S (length row0) /\
                   Tf.data tX = (t0 :: row0) ++ concat X').
  { unfold Tf.tensor2d, X in HtX. destruct (Nat.eqb _ _); [|discriminate].
    injection HtX as <-. simpl. auto. }
  destruct Hshape as (Hrows & Hcols & Hdata).
  assert (Hround : round (initial_weights (Tf.rows tX)) tX y (Tf.cols tX) 0
                   = Throw ReduceOfEmptyArray).
  { unfold round. rewrite Hcols.
    destruct row0 as [|x1 row0]; [contradiction|].
    cbn [length seq for_each].
    assert (H0 : forall st, try_feature 0 (initial_weights (Tf.rows tX)) tX y st 0
                       = Ok st).
    { intros st. unfold try_feature, Tf.slice_data. simpl. reflexivity. }
    rewrite H0. cbn [Js.bind].
    assert (H1 : forall st, try_feature 0 (initial_weights (Tf.rows tX)) tX y st 1
                       = Throw ReduceOfEmptyArray).
    { intros st. unfold try_feature, Tf.slice_data.
      replace (Nat.leb 1 (Tf.rows tX)) with true by (rewrite Hrows; reflexivity).
      cbn [Js.bind]. rewrite Nat.mul_1_l, Hcols, Hdata.
      change (S (length (x1 :: row0))) with (length (t0 :: x1 :: row0)).
      rewrite firstn_length_app.
      unfold Lodash.flattenDeep, Lodash.uniq. cbn [Lodash.uniq_from existsb].
      cbn [for_each]. destruct st as [clf minError].
      unfold try_threshold, candidate.
      replace (weighted_error (initial_weights (Tf.rows tX)) y t0)
        with (@Throw Q ReduceOfEmptyArray); [reflexivity|].
      symmetry. apply weighted_error_throws_iff.
      unfold initial_weights, Tf.fill. rewrite repeat_length, Hrows.
      exact Hfits. }
    rewrite H1. reflexivity. }
  cbn [seq for_collect]. rewrite Hround. reflexivity.
Qed.

Lemma fit_throws_when_first_threshold_fits_witness :
  snd (fit (new_AdaboostClassifier None) [[1; 3]; [2; 4]] [1; 1])
  = Throw ReduceOfEmptyArray.
Proof.
  apply (fit_throws_when_first_threshold_fits (new_AdaboostClassifier None)
           1 [3] [[2; 4]] [1; 1]
           {| Tf.rows := 2; Tf.cols := 2; Tf.data := [1; 3; 2; 4] |}).
  - exists 1%Z, 0%Z. repeat split; try reflexivity; lia.
  - reflexivity.
  - discriminate.
  - simpl. lia.
  - intros index Hlt. destruct index as [|[|index]]; [reflexivity..|simpl in Hlt; lia].
Defined.

(** ** The Binarizer: both modes, failures, and a second run *)

Section BinarizerMore.

Import Binarizer.

Variable b : Binarizer.

Local Abbreviation f := (binarize_row (threshold b)).
Local Abbreviation binarized := (fun (h : heap) (r : nat) => alter f r h).

Lemma for_heap_app {A} (body : A -> heap -> heap * result unit) (l1 l2 : list A)
    (h : heap) :
  for_heap body (l1 ++ l2) h =
  match for_heap body l1 h with
  | (h', Ok _) => for_heap body l2 h'
  | (h', Throw e) => (h', Throw e)
  end.
Proof.
  revert h. induction l1 as [|a l1 IH]; intros h; simpl; [reflexivity|].
  destruct (body a h) as [h1 [u|e]]; [apply IH | reflexivity].
Qed.

(** Some columns of one row, the items before and after left alone. *)
Lemma transform_items_part l l' outer row r :
  l ≠ r -> l' ≠ r -> outer !! row = Some (VRef r) ->
  forall (mid : list Q) (pre post : list value) (h : heap),
    h !! l = Some outer -> h !! l' = Some outer ->
    h !! r = Some (pre ++ (VNum <$> mid) ++ post) ->
    for_heap (transform_item b (VRef l) (VRef l') row)
      (seq (length pre) (length mid)) h
    = (<[r := pre ++ f (VNum <$> mid) ++ post]> h, Ok tt).
Proof.
  intros Hl Hl' Hrow mid.
  induction mid as [|q mid IH]; intros pre post h Hhl Hhl' Hhr.
  - simpl. rewrite insert_id; [reflexivity | exact Hhr].
  - cbn [length seq for_heap].
    unfold transform_item at 1. unfold get2, get. rewrite Hhl. simpl.
    rewrite Hrow, Hhr. simpl.
    rewrite list_lookup_middle by reflexivity.
    unfold set2, get. rewrite Hhl'. simpl. rewrite Hrow.
    rewrite (alter_known h r _ _ Hhr).
    set (v := VNum (binarize (threshold b) q)).
    assert (Hins : <[length pre := v]> (pre ++ (VNum <$> q :: mid) ++ post)
                   = (pre ++ [v]) ++ (VNum <$> mid) ++ post).
    { rewrite <- (Nat.add_0_r (length pre)), insert_app_r.
      simpl. rewrite <- app_assoc. reflexivity. }
    rewrite Hins.
    replace (S (length pre)) with (length (pre ++ [v]))
      by (rewrite length_app; simpl; lia).
    rewrite (IH (pre ++ [v]) post).
    + rewrite insert_insert_eq. rewrite <- app_assoc. reflexivity.
    + rewrite lookup_insert_ne by auto. exact Hhl.
    + rewrite lookup_insert_ne by auto. exact Hhl'.
    + apply lookup_insert_eq.
Qed.

(** A row whose first item that is not a number comes after the numbers
    [qs]: the numbers are overwritten, then the loop throws. *)
Lemma transform_row_fails l l' (rs : list nat) row r (qs : list Q) x rest
    (h : heap) :
  l ≠ r -> l' ≠ r -> rs !! row = Some r ->
  h !! l = Some (VRef <$> rs) -> h !! l' = Some (VRef <$> rs) ->
  h !! r = Some ((VNum <$> qs) ++ x :: rest) ->
  (forall q, x ≠ VNum q) ->
  transform_row b (VRef l) (VRef l') row h
  = (<[r := f (VNum <$> qs) ++ x :: rest]> h, Throw NotANumber).
Proof.
  intros Hl Hl' Hrow Hhl Hhl' Hhr Hx.
  assert (Hout : (VRef <$> rs) !! row = Some (VRef r)).
  { rewrite list_lookup_fmap, Hrow. reflexivity. }
  unfold transform_row, get. rewrite Hhl. simpl. rewrite Hout.
  unfold size. rewrite Hhr. simpl. rewrite length_app, length_fmap.
  cbn [length]. rewrite seq_app, for_heap_app. simpl plus.
  pose proof (transform_items_part l l' _ row r Hl Hl' Hout qs [] (x :: rest) h
                Hhl Hhl' Hhr) as Hrun.
  cbn [length app] in Hrun. rewrite Hrun.
  cbn [seq for_heap]. unfold transform_item, get2, get.
  rewrite lookup_insert_ne by auto. rewrite Hhl. simpl. rewrite Hout.
  rewrite lookup_insert_eq. simpl.
  replace (length qs) with (length (f (VNum <$> qs)))
    by (unfold binarize_row; rewrite !length_fmap; reflexivity).
  rewrite list_lookup_middle by reflexivity.
  destruct x as [q| |]; [exfalso; eapply Hx; reflexivity | reflexivity..].
Qed.

(** Some of the rows, in turn. *)
Lemma transform_rows_part l l' (rs : list nat) :
  forall (mid pre post : list nat) (h : heap),
    rs = pre ++ mid ++ post ->
    l ∉ mid -> l' ∉ mid ->
    h !! l = Some (VRef <$> rs) -> h !! l' = Some (VRef <$> rs) ->
    (forall r, r ∈ mid -> exists qs : list Q, h !! r = Some (VNum <$> qs)) ->
    for_heap (transform_row b (VRef l) (VRef l'))
      (seq (length pre) (length mid)) h
    = (foldl binarized h mid, Ok tt).
Proof.
  induction mid as [|r mid IH]; intros pre post h Hrs Hl Hl' Hhl Hhl' Hnum.
  - reflexivity.
  - cbn [length seq for_heap foldl].
    apply not_elem_of_cons in Hl as [Hlr Hl].
    apply not_elem_of_cons in Hl' as [Hlr' Hl'].
    destruct (Hnum r) as [qs Hqs]; [apply elem_of_cons; auto|].
    assert (Hrow : rs !! length pre = Some r).
    { rewrite Hrs. apply list_lookup_middle. reflexivity. }
    rewrite (transform_row_run b l l' rs _ r qs h Hlr Hlr' Hrow Hhl Hhl' Hqs).
    replace (S (length pre)) with (length (pre ++ [r]))
      by (rewrite length_app; simpl; lia).
    apply (IH (pre ++ [r]) post).
    + rewrite Hrs, <- app_assoc. reflexivity.
    + exact Hl.
    + exact Hl'.
    + rewrite lookup_alter_ne by auto. exact Hhl.
    + rewrite lookup_alter_ne by auto. exact Hhl'.
    + intros r' Hr'. destruct (decide (r = r')) as [<-|Hne].
      * exists (binarize (threshold b) <$> qs).
        rewrite lookup_alter_eq, Hqs. simpl. f_equal.
        unfold binarize_row. rewrite <- !list_fmap_compose. reflexivity.
      * rewrite lookup_alter_ne by exact Hne. apply Hnum.
        apply elem_of_cons. auto.
Qed.

(** The start of [transform]: the array written through is the input
    itself, or a new array with the same elements. *)
Lemma transform_start (h : heap) l outer :
  h !! l = Some outer ->
  exists (h0 : heap) (l' : nat),
    h0 !! l = Some outer /\ h0 !! l' = Some outer /\
    (forall x, x ≠ l' -> h0 !! x = h !! x) /\
    (if copy b then l' = fresh (dom h) /\ h !! l' = None
     else l' = l /\ h0 = h) /\
    transform b (VRef l) h =
      if Nat.eqb (length outer) 0 then (h0, Throw XCannotBeNull)
      else match for_heap (transform_row b (VRef l) (VRef l'))
                   (seq 0 (length outer)) h0 with
           | (h', Ok _) => (h', Ok (VRef l'))
           | (h', Throw e) => (h', Throw e)
           end.
Proof.
  intros Hl. unfold transform. destruct (copy b) eqn:Hcopy.
  - set (l' := fresh (dom h)).
    assert (Hnone : h !! l' = None).
    { apply not_elem_of_dom. apply is_fresh. }
    assert (Hne : l' ≠ l) by (intros E; rewrite E in Hnone; congruence).
    exists (<[l' := outer]> h), l'. unfold clone. rewrite Hl. simpl. fold l'.
    split; [rewrite lookup_insert_ne by exact Hne; exact Hl|].
    split; [apply lookup_insert_eq|].
    split; [intros x Hx; apply lookup_insert_ne; auto|].
    split; [auto|].
    unfold isEmpty, size. rewrite lookup_insert_ne by exact Hne.
    rewrite Hl. reflexivity.
  - exists h, l. repeat split; auto.
    unfold isEmpty, size. rewrite Hl. reflexivity.
Qed.

End BinarizerMore.

Section BinarizerRuns.

Import Binarizer.

Variable b : Binarizer.

Local Abbreviation f := (binarize_row (threshold b)).
Local Abbreviation binarized := (fun (h : heap) (r : nat) => alter f r h).

Lemma binarized_dom (rs : list nat) (h : heap) :
  dom (foldl binarized h rs) = dom h.
Proof.
  revert h. induction rs as [|r rs IH]; intros h; simpl; [reflexivity|].
  rewrite IH. apply dom_alter_L.
Qed.

(** Every row ends as the binarization of a row of numbers. *)
Lemma binarized_lookup_numeric (rs : list nat) :
  forall (h : heap) r,
    r ∈ rs ->
    (forall r', r' ∈ rs -> exists qs : list Q, h !! r' = Some (VNum <$> qs)) ->
    exists qs : list Q,
      foldl binarized h rs !! r = Some (VNum <$> (binarize (threshold b) <$> qs)).
Proof.
  induction rs as [|r0 rs IH]; intros h r Hr Hnum.
  - apply elem_of_nil in Hr. contradiction.
  - simpl.
    assert (Hnum1 : forall r', r' ∈ rs ->
              exists qs : list Q, alter f r0 h !! r' = Some (VNum <$> qs)).
    { intros r' Hr'. destruct (decide (r0 = r')) as [<-|Hne].
      - destruct (Hnum r0) as [qs Hqs]; [apply elem_of_cons; auto|].
        exists (binarize (threshold b) <$> qs).
        rewrite lookup_alter_eq, Hqs. simpl. f_equal.
        unfold binarize_row. rewrite <- !list_fmap_compose. reflexivity.
      - rewrite lookup_alter_ne by exact Hne. apply Hnum.
        apply elem_of_cons. auto. }
    destruct (decide (r ∈ rs)) as [Hin|Hnotin].
    + apply IH; assumption.
    + apply elem_of_cons in Hr as [->|Hr]; [|contradiction].
      rewrite binarized_lookup_other by exact Hnotin.
      destruct (Hnum r0) as [qs Hqs]; [apply elem_of_cons; auto|].
      exists qs. rewrite lookup_alter_eq, Hqs. simpl. f_equal.
      unfold binarize_row. rewrite <- !list_fmap_compose. reflexivity.
Qed.

(** [transform] of a numeric matrix with a row: the heap it leaves and the
    array it returns. *)
Lemma transform_numeric (h : heap) l (rs : list nat) :
  numeric_matrix h l rs -> rs ≠ [] ->
  exists (h0 : heap) (l' : nat),
    h0 !! l = Some (VRef <$> rs) /\ h0 !! l' = Some (VRef <$> rs) /\
    (forall x, x ≠ l' -> h0 !! x = h !! x) /\
    (if copy b then l' = fresh (dom h) /\ h !! l' = None
     else l' = l /\ h0 = h) /\
    (l ∉ rs) /\ (l' ∉ rs) /\
    transform b (VRef l) h = (foldl binarized h0 rs, Ok (VRef l')).
Proof.
  intros Hm Hrs.
  pose proof (numeric_matrix_not_row h l rs Hm) as Hlrs.
  destruct (numeric_matrix_fresh h l rs Hm) as (_ & Hfresh & _).
  destruct Hm as [Hl Hnum].
  destruct (transform_start b h l _ Hl)
    as (h0 & l' & Hh0l & Hh0l' & Hsame & Hmode & Ht).
  assert (Hl'rs : l' ∉ rs).
  { destruct (copy b); destruct Hmode as [-> _]; assumption. }
  exists h0, l'. repeat split; try assumption.
  rewrite Ht, length_fmap.
  destruct rs as [|r0 rs0] eqn:Ers; [contradiction|]. rewrite <- Ers in *.
  replace (Nat.eqb (length rs) 0) with false by (rewrite Ers; reflexivity).
  assert (Hnum0 : forall r, r ∈ rs ->
            exists qs : list Q, h0 !! r = Some (VNum <$> qs)).
  { intros r Hr. rewrite Hsame; [apply Hnum; exact Hr|].
    intros ->. contradiction. }
  pose proof (transform_rows_part b l l' rs rs [] [] h0) as Hrun.
  cbn [length] in Hrun. rewrite Hrun; auto.
  rewrite app_nil_r. reflexivity.
Qed.

End BinarizerRuns.

Section BinarizerExtras.

Import Binarizer.

(** X6: with [copy = false], [transform] of a numeric matrix with a row
    returns the input array itself and allocates nothing: every array that
    is not a row is left as it was, and rows that are distinct arrays hold
    the binarized values of what they held. *)
Theorem transform_in_place :
  forall (b : Binarizer) (h : heap) (l : nat) (rs : list nat),
    copy b = false -> numeric_matrix h l rs -> rs ≠ [] ->
    exists h' : heap,
      transform b (VRef l) h = (h', Ok (VRef l)) /\
      dom h' = dom h /\
      (forall x, x ∉ rs -> h' !! x = h !! x) /\
      (NoDup rs -> forall r, r ∈ rs ->
         h' !! r = binarize_row (threshold b) <$> h !! r).
Proof.
  intros b h l rs Hcopy Hm Hrs.
  destruct (transform_numeric b h l rs Hm Hrs)
    as (h0 & l' & _ & _ & _ & Hmode & _ & _ & Ht).
  rewrite Hcopy in Hmode. destruct Hmode as [-> ->].
  eexists. split; [exact Ht|]. split; [apply binarized_dom|]. split.
  - intros x Hx. apply binarized_lookup_other. exact Hx.
  - intros Hnd r Hr. apply binarized_lookup_row; assumption.
Qed.

Lemma transform_in_place_witness :
  exists h' : heap,
    transform (new_Binarizer None (Some false)) (VRef 0) hB
    = (h', Ok (VRef 0)) /\
    dom h' = dom hB /\
    h' !! 1%nat = Some (VNum <$> [1; 0; 1]%Q).
Proof.
  assert (Hm : numeric_matrix hB 0 [1; 2; 3]%nat).
  { split; [reflexivity|]. intros r Hr.
    apply elem_of_cons in Hr as [->|Hr]; [exists [1; -1; 2]%Q; reflexivity|].
    apply elem_of_cons in Hr as [->|Hr]; [exists [2; 0; 0]%Q; reflexivity|].
    apply elem_of_cons in Hr as [->|Hr]; [exists [0; 1; -1]%Q; reflexivity|].
    apply elem_of_nil in Hr. contradiction. }
  assert (Hnd : NoDup [1; 2; 3]%nat).
  { apply (bool_decide_unpack (NoDup [1; 2; 3]%nat)). vm_compute. exact I. }
  destruct (transform_in_place (new_Binarizer None (Some false)) hB 0%nat
              [1; 2; 3]%nat eq_refl Hm ltac:(discriminate))
    as (h' & Ht & Hdom & _ & Hrows).
  exists h'. split; [exact Ht|]. split; [exact Hdom|].
  rewrite (Hrows Hnd 1%nat); [reflexivity|]. apply elem_of_cons. auto.
Defined.

(** X7: whenever [transform] of a numeric matrix returns, in either mode
    and also when one row array occurs several times, every entry of the
    matrix returned is the number 0 or the number 1. *)
Theorem transform_yields_zero_one :
  forall (b : Binarizer) (h h' : heap) (l : nat) (rs : list nat) (v : value),
    numeric_matrix h l rs ->
    transform b (VRef l) h = (h', Ok v) ->
    length (read_matrix h' v) = length rs /\
    forall row item, row ∈ read_matrix h' v -> item ∈ row ->
      item = VNum 0 \/ item = VNum 1.
Proof.
  intros b h h' l rs v Hm Ht.
  assert (Hrs : rs ≠ []).
  { intros ->. destruct Hm as [Hl _].
    destruct (transform_start b h l _ Hl) as (h0 & l' & _ & _ & _ & _ & Ht0).
    rewrite Ht0 in Ht. simpl in Ht. discriminate. }
  destruct (transform_numeric b h l rs Hm Hrs)
    as (h0 & l' & Hh0l & Hh0l' & Hsame & _ & _ & Hl'rs & Ht0).
  rewrite Ht0 in Ht. injection Ht as <- <-.
  assert (Hnum0 : forall r, r ∈ rs ->
            exists qs : list Q, h0 !! r = Some (VNum <$> qs)).
  { intros r Hr. rewrite Hsame; [apply (proj2 Hm); exact Hr|].
    intros ->. contradiction. }
  unfold read_matrix. unfold read_row at 2 4.
  rewrite binarized_lookup_other by exact Hl'rs. rewrite Hh0l'. simpl.
  split; [rewrite !length_fmap; reflexivity|].
  intros row item Hrow Hitem.
  apply list_elem_of_fmap in Hrow as (vr & -> & Hvr).
  apply list_elem_of_fmap in Hvr as (r & -> & Hr).
  destruct (binarized_lookup_numeric b rs h0 r Hr Hnum0) as [qs Hqs].
  simpl in Hitem. rewrite Hqs in Hitem. simpl in Hitem.
  apply list_elem_of_fmap in Hitem as (q' & -> & Hq').
  apply list_elem_of_fmap in Hq' as (q & -> & _).
  unfold binarize. destruct (Qle_bool q (threshold b)); auto.
Qed.

Lemma transform_yields_zero_one_witness :
  exists (h' : heap) (v : value),
    transform (new_Binarizer (Some 5%Q) None) (VRef 0)
      (<[0%nat := [VRef 1; VRef 1]]> (<[1%nat := [VNum 7; VNum 3]]> ∅))
    = (h', Ok v) /\
    forall row item, row ∈ read_matrix h' v -> item ∈ row ->
      item = VNum 0 \/ item = VNum 1.
Proof.
  set (h := <[0%nat := [VRef 1; VRef 1]]> (<[1%nat := [VNum 7; VNum 3]]> ∅)).
  assert (Hm : numeric_matrix h 0 [1; 1]%nat).
  { split; [reflexivity|]. intros r Hr.
    apply elem_of_cons in Hr as [->|Hr]; [exists [7; 3]%Q; reflexivity|].
    apply elem_of_cons in Hr as [->|Hr]; [exists [7; 3]%Q; reflexivity|].
    apply elem_of_nil in Hr. contradiction. }
  assert (Ht : exists h' v,
             transform (new_Binarizer (Some 5%Q) None) (VRef 0) h = (h', Ok v)).
  { do 2 eexists. vm_compute. reflexivity. }
  destruct Ht as (h' & v & Ht). exists h', v. split; [exact Ht|].
  exact (proj2 (transform_yields_zero_one _ _ _ _ _ _ Hm Ht)).
Defined.

End BinarizerExtras.

Section BinarizerFailure.

Import Binarizer.

(** X8: a [transform] that meets an item that is not a number throws, and
    what it wrote before stays written, in the caller's rows also when
    [copy = true]: the rows before the offending one are binarized, and so
    are the items of the offending row that come before the item. *)
Theorem transform_failure_keeps_writes :
  forall (b : Binarizer) (h : heap) (l : nat) (pre : list nat) (r : nat)
         (post : list nat) (qs : list Q) (x : value) (rest : list value),
    h !! l = Some (VRef <$> (pre ++ r :: post)) ->
    (forall r', r' ∈ pre -> exists qs' : list Q, h !! r' = Some (VNum <$> qs')) ->
    h !! r = Some ((VNum <$> qs) ++ x :: rest) ->
    (forall q, x ≠ VNum q) ->
    l ≠ r ->
    exists h' : heap,
      transform b (VRef l) h = (h', Throw NotANumber) /\
      h' !! r = Some (binarize_row (threshold b) (VNum <$> qs) ++ x :: rest) /\
      h' !! l = h !! l /\
      (NoDup pre -> forall r', r' ∈ pre ->
         h' !! r' = binarize_row (threshold b) <$> h !! r').
Proof.
  intros b h l pre r post qs x rest Hl Hnum Hr Hx Hlr.
  set (rs := pre ++ r :: post) in *.
  assert (Hlpre : l ∉ pre).
  { intros Hin. destruct (Hnum l Hin) as [qs' Hqs']. rewrite Hl in Hqs'.
    injection Hqs' as Hqs'. unfold rs in Hqs'.
    destruct pre as [|p0 pre'], qs' as [|q0 qs']; try discriminate;
      apply elem_of_nil in Hin; contradiction. }
  assert (Hrpre : r ∉ pre).
  { intros Hin. destruct (Hnum r Hin) as [qs' Hqs']. rewrite Hr in Hqs'.
    injection Hqs' as Hqs'.
    assert (Hk : ((VNum <$> qs) ++ x :: rest) !! length (VNum <$> qs) = Some x)
      by (apply list_lookup_middle; reflexivity).
    rewrite Hqs', list_lookup_fmap in Hk.
    destruct (qs' !! length (VNum <$> qs)) as [q|]; simpl in Hk; [|discriminate].
    injection Hk as Hk. symmetry in Hk. exact (Hx q Hk). }
  destruct (transform_start b h l _ Hl)
    as (h0 & l' & Hh0l & Hh0l' & Hsame & Hmode & Ht).
  assert (Hl'pre : l' ∉ pre).
  { destruct (copy b).
    - destruct Hmode as [_ Hnone]. intros Hin.
      destruct (Hnum l' Hin) as [qs' Hqs']. congruence.
    - destruct Hmode as [-> _]. exact Hlpre. }
  assert (Hl'r : l' ≠ r).
  { destruct (copy b).
    - destruct Hmode as [_ Hnone]. intros ->. congruence.
    - destruct Hmode as [-> _]. exact Hlr. }
  assert (Hnum0 : forall r', r' ∈ pre ->
            exists qs' : list Q, h0 !! r' = Some (VNum <$> qs')).
  { intros r' Hr'. rewrite Hsame; [apply Hnum; exact Hr'|].
    intros ->. contradiction. }
  set (h1 := foldl (fun (h : heap) (r : nat) =>
                      alter (binarize_row (threshold b)) r h) h0 pre).
  assert (Hrows : for_heap (transform_row b (VRef l) (VRef l'))
                    (seq 0 (length pre)) h0 = (h1, Ok tt)).
  { apply (transform_rows_part b l l' rs pre [] (r :: post) h0); auto. }
  assert (Hh1l : h1 !! l = Some (VRef <$> rs)).
  { unfold h1. rewrite binarized_lookup_other by exact Hlpre. exact Hh0l. }
  assert (Hh1l' : h1 !! l' = Some (VRef <$> rs)).
  { unfold h1. rewrite binarized_lookup_other by exact Hl'pre. exact Hh0l'. }
  assert (Hh1r : h1 !! r = Some ((VNum <$> qs) ++ x :: rest)).
  { unfold h1. rewrite binarized_lookup_other by exact Hrpre.
    rewrite Hsame by auto. exact Hr. }
  assert (Hrow : rs !! length pre = Some r).
  { unfold rs. apply list_lookup_middle. reflexivity. }
  pose proof (transform_row_fails b l l' rs (length pre) r qs x rest h1
                Hlr Hl'r Hrow Hh1l Hh1l' Hh1r Hx) as Hfail.
  eexists. split; [|split; [|split]].
  - rewrite Ht, length_fmap. unfold rs at 1 2. rewrite length_app. cbn [length].
    replace (Nat.eqb (length pre + S (length post)) 0) with false
      by (symmetry; apply Nat.eqb_neq; lia).
    rewrite seq_app, for_heap_app, Hrows. cbn [plus seq for_heap].
    rewrite Hfail. reflexivity.
  - apply lookup_insert_eq.
  - rewrite lookup_insert_ne by auto. rewrite Hh1l. symmetry. exact Hl.
  - intros Hnd r' Hr'.
    assert (Hne : r ≠ r') by (intros ->; contradiction).
    rewrite lookup_insert_ne by exact Hne.
    unfold h1. rewrite binarized_lookup_row by assumption.
    rewrite Hsame; [reflexivity|]. intros ->. contradiction.
Qed.

Lemma transform_failure_keeps_writes_witness :
  exists h' : heap,
    transform (new_Binarizer None None) (VRef 0)
      (<[0%nat := [VRef 1; VRef 2]]>
         (<[1%nat := [VNum 3; VNum (-1)]]>
            (<[2%nat := [VNum 2; VNull; VNum 5]]> ∅)))
    = (h', Throw NotANumber) /\
    h' !! 1%nat = Some [VNum 1; VNum 0] /\
    h' !! 2%nat = Some [VNum 1; VNull; VNum 5].
Proof.
  set (h := <[0%nat := [VRef 1; VRef 2]]>
              (<[1%nat := [VNum 3; VNum (-1)]]>
                 (<[2%nat := [VNum 2; VNull; VNum 5]]> ∅))).
  destruct (transform_failure_keeps_writes (new_Binarizer None None) h 0%nat
              [1%nat] 2%nat [] [2%Q] VNull [VNum 5])
    as (h' & Ht & Hr & _ & Hpre).
  - reflexivity.
  - intros r' Hr'. apply elem_of_cons in Hr' as [->|Hr'].
    + exists [3; -1]%Q. reflexivity.
    + apply elem_of_nil in Hr'. contradiction.
  - reflexivity.
  - discriminate.
  - discriminate.
  - exists h'. split; [exact Ht|]. split.
    + rewrite Hpre; [reflexivity| |apply elem_of_cons; auto].
      apply NoDup_singleton.
    + exact Hr.
Defined.

Lemma binarized_fixed (t : Q) (rs : list nat) :
  forall h : heap,
    (forall r, r ∈ rs ->
       exists items, h !! r = Some items /\ binarize_row t items = items) ->
    foldl (fun (h : heap) (r : nat) => alter (binarize_row t) r h) h rs = h.
Proof.
  induction rs as [|r rs IH]; intros h Hfix; simpl; [reflexivity|].
  destruct (Hfix r) as (items & Hr & Hitems); [apply elem_of_cons; auto|].
  rewrite (alter_known h r items _ Hr), Hitems, (insert_id h r items Hr).
  apply IH. intros r' Hr'. apply Hfix. apply elem_of_cons. auto.
Qed.

Lemma binarize_twice (t q : Q) :
  (0 <= t < 1)%Q -> binarize t (binarize t q) = binarize t q.
Proof.
  intros [H0 H1]. unfold binarize. destruct (Qle_bool q t).
  - replace (Qle_bool 0 t) with true; [reflexivity|].
    symmetry. apply Qle_bool_iff. exact H0.
  - replace (Qle_bool 1 t) with false; [reflexivity|].
    symmetry. destruct (Qle_bool 1 t) eqn:E; [|reflexivity].
    apply Qle_bool_iff in E. exfalso. eapply Qlt_not_le; eauto.
Qed.

(** X9: when the threshold is at least 0 and below 1, as the default 0
    is, a second in-place [transform] of the same matrix changes nothing:
    it returns the same array and leaves the heap as the first left it. *)
Theorem transform_twice_in_place :
  forall (b : Binarizer) (h h1 : heap) (l : nat) (rs : list nat),
    copy b = false -> (0 <= threshold b < 1)%Q ->
    numeric_matrix h l rs ->
    transform b (VRef l) h = (h1, Ok (VRef l)) ->
    transform b (VRef l) h1 = (h1, Ok (VRef l)).
Proof.
  intros b h h1 l rs Hcopy Hthr Hm Ht.
  assert (Hrs : rs ≠ []).
  { intros ->. destruct Hm as [Hl _].
    destruct (transform_start b h l _ Hl) as (h0 & l' & _ & _ & _ & _ & Ht0).
    rewrite Ht0 in Ht. simpl in Ht. discriminate. }
  destruct (transform_numeric b h l rs Hm Hrs)
    as (h0 & l' & _ & _ & _ & Hmode & Hlrs & _ & Ht0).
  rewrite Hcopy in Hmode. destruct Hmode as [-> ->].
  rewrite Ht0 in Ht. injection Ht as <-.
  set (h1 := foldl _ h rs) in *.
  assert (Hrows : forall r, r ∈ rs -> exists qs : list Q,
             h1 !! r = Some (VNum <$> (binarize (threshold b) <$> qs))).
  { intros r Hr. apply binarized_lookup_numeric; [exact Hr | exact (proj2 Hm)]. }
  assert (Hm1 : numeric_matrix h1 l rs).
  { split.
    - unfold h1. rewrite binarized_lookup_other by exact Hlrs. exact (proj1 Hm).
    - intros r Hr. destruct (Hrows r Hr) as [qs Hqs]. eauto. }
  destruct (transform_numeric b h1 l rs Hm1 Hrs)
    as (h0 & l' & _ & _ & _ & Hmode & _ & _ & Ht1).
  rewrite Hcopy in Hmode. destruct Hmode as [-> ->].
  rewrite Ht1. f_equal. apply binarized_fixed.
  intros r Hr. destruct (Hrows r Hr) as [qs Hqs].
  eexists. split; [exact Hqs|].
  unfold binarize_row. rewrite <- !list_fmap_compose.
  apply list_fmap_ext. intros i q _. simpl. f_equal.
  apply binarize_twice. exact Hthr.
Qed.

Lemma transform_twice_in_place_witness :
  exists h1 : heap,
    transform (new_Binarizer None (Some false)) (VRef 0) hB
    = (h1, Ok (VRef 0)) /\
    transform (new_Binarizer None (Some false)) (VRef 0) h1
    = (h1, Ok (VRef 0)).
Proof.
  assert (Hm : numeric_matrix hB 0 [1; 2; 3]%nat).
  { split; [reflexivity|]. intros r Hr.
    apply elem_of_cons in Hr as [->|Hr]; [exists [1; -1; 2]%Q; reflexivity|].
    apply elem_of_cons in Hr as [->|Hr]; [exists [2; 0; 0]%Q; reflexivity|].
    apply elem_of_cons in Hr as [->|Hr]; [exists [0; 1; -1]%Q; reflexivity|].
    apply elem_of_nil in Hr. contradiction. }
  assert (Ht : exists h1,
             transform (new_Binarizer None (Some false)) (VRef 0) hB
             = (h1, Ok (VRef 0))).
  { eexists. vm_compute. reflexivity. }
  destruct Ht as [h1 Ht]. exists h1. split; [exact Ht|].
  apply (transform_twice_in_place (new_Binarizer None (Some false)) hB h1
           0%nat [1; 2; 3]%nat eq_refl); [|exact Hm|exact Ht].
  simpl. split; [apply Qle_refl | reflexivity].
Defined.

End BinarizerFailure.

(** ** The MinMaxScaler *)

Section MinMaxScalerFacts.

Import JsNumber MinMaxScaler.

Local Open Scope Q_scope.





End MinMaxScalerFacts.

Section MinMaxScalerExtras.

Import JsNumber MinMaxScaler.

Local Open Scope Q_scope.



(** X12: [fit_transform] does not fit.  On a scaler that was never fitted,
    or that was fitted on an empty array, it gives [NaN] for every
    element of its argument. *)
Theorem fit_transform_without_data :
  forall (r : option (jsnum * jsnum)) (X : list Q),
    fit_transform (new_MinMaxScaler r) X = repeat NaN (length X) /\
    fit_transform (MinMaxScaler.fit (new_MinMaxScaler r) []) X
    = repeat NaN (length X).
Proof.
  intros r X. split.
  - unfold fit_transform. simpl. induction X as [|x X IH]; [reflexivity|].
    simpl. rewrite IH. reflexivity.
  - unfold fit_transform, MinMaxScaler.fit. simpl.
    assert (Hs : forall a, div a NaN = NaN) by (intros a; destruct a; reflexivity).
    rewrite Hs. induction X as [|x X IH]; [reflexivity|].
    simpl. rewrite IH. reflexivity.
Qed.

End MinMaxScalerExtras.

(** ** Decoding rows *)

Section OneHotEncoderFacts.

Import JsNumber OneHotEncoder.

Local Open Scope Q_scope.

Lemma decodeRow_from_step (x : jsnum) (X : list jsnum) (d : decoder)
    (decoders : list decoder) (record : gmap string value) (v : value) :
  decode_field d (x :: X) x = Decoded v ->
  decodeRow_from (x :: X) (d :: decoders) record
  = decodeRow_from (drop (step d) (x :: X)) decoders (store (key d) v record).
Proof. intros H. simpl. rewrite H. reflexivity. Qed.

Lemma step_positive (d : decoder) : (1 <= step d)%nat.
Proof. unfold step. destruct (offset d) as [[|n]|]; lia. Qed.

Lemma decodeRow_from_TypeError (decoders : list decoder) :
  (forall d, In d decoders -> type d = TString -> lookupTable d <> None) ->
  forall (X : list jsnum) (record : gmap string value),
    decodeRow_from X decoders record = TypeError <->
    (covered decoders < length X)%nat.
Proof.
  induction decoders as [|d decoders IH]; intros Htables X record.
  - destruct X as [|x X]; simpl; split; intros H;
      try discriminate; try reflexivity; lia.
  - destruct X as [|x X]; [simpl; split; [discriminate | lia]|].
    assert (Hfield : exists v, decode_field d (x :: X) x = Decoded v).
    { unfold decode_field, getStrVal.
      destruct (type d) eqn:Et; eauto.
      destruct (lookupTable d) eqn:El; eauto.
      exfalso. apply (Htables d); auto. left. reflexivity. }
    destruct Hfield as [v Hv]. rewrite (decodeRow_from_step _ _ _ _ _ _ Hv).
    rewrite IH by (intros d' Hd'; apply Htables; right; exact Hd').
    rewrite length_drop. cbn [covered fold_right]. fold (covered decoders).
    lia.
Qed.

(** X13: provided every string decoder has its lookup table, [decodeRow]
    throws a TypeError exactly when the decoders, each consuming its offset
    or one element, do not cover the row; an empty row is decoded to the
    empty record whatever the decoders. *)
Theorem decodeRow_throws_iff_uncovered :
  forall (row : list jsnum) (decoders : list decoder),
    (forall d, In d decoders -> type d = TString -> lookupTable d <> None) ->
    (decodeRow row decoders = TypeError <->
     (covered decoders < length row)%nat) /\
    decodeRow [] decoders = Decoded ∅.
Proof.
  intros row decoders Htables. split.
  - apply decodeRow_from_TypeError. exact Htables.
  - unfold decodeRow. destruct decoders; reflexivity.
Qed.

Lemma decodeRow_throws_iff_uncovered_witness :
  decodeRow [Val 1; Val 0; Val 7]
    [{| type := TString; key := "planet"; offset := Some 2%nat;
        lookupTable := Some ["mars"; "saturn"]; mean := Undef; std := Undef |}]
  = TypeError.
Proof.
  apply (proj1 (decodeRow_throws_iff_uncovered [Val 1; Val 0; Val 7]
           [{| type := TString; key := "planet"; offset := Some 2%nat;
               lookupTable := Some ["mars"; "saturn"];
               mean := Undef; std := Undef |}]
           ltac:(intros d [<-|[]] _; discriminate))).
  simpl. lia.
Defined.

Lemma indexOf_1_string_code (k : nat) :
  forall n a, (a <= k)%nat -> (k < a + n)%nat ->
    indexOf_1 (map (fun pos => Val (if Nat.eqb k pos then 1 else 0)) (seq a n))
    = Some (k - a)%nat.
Proof.
  induction n as [|n IH]; intros a Hle Hlt; [lia|].
  cbn [seq map indexOf_1]. destruct (Nat.eqb k a) eqn:E.
  - apply Nat.eqb_eq in E. subst a. simpl is_one. cbv iota.
    f_equal. lia.
  - apply Nat.eqb_neq in E. simpl is_one. cbv iota.
    rewrite IH by lia. simpl. f_equal. lia.
Qed.

(** A decoder reads back the value its block encodes, and steps over the
    block. *)
Lemma decode_field_encodes (d : decoder) (v : value) (block : list jsnum) :
  encodes d v block ->
  forall rest, exists x X,
    block ++ rest = x :: X /\
    decode_field d (x :: X) x = Decoded v /\
    drop (step d) (x :: X) = rest.
Proof.
  intros H rest. destruct H as [d b Ht Ho | d table k s Ht Hl Ho Hk].
  - exists (boolean_code b), rest. split; [reflexivity|].
    unfold decode_field, step. rewrite Ht, Ho. split; [|reflexivity].
    destruct b; reflexivity.
  - assert (Hlt : (k < length table)%nat) by (eapply lookup_lt_Some; eauto).
    set (block := string_code k (length table)).
    assert (Hlen : length block = length table).
    { unfold block, string_code. rewrite length_map, length_seq. reflexivity. }
    destruct (length table) as [|n] eqn:En; [lia|].
    destruct block as [|x X] eqn:Eb; [discriminate|].
    exists x, (X ++ rest). split; [reflexivity|].
    unfold decode_field, step, getStrVal. rewrite Ht, Ho, Hl.
    change (x :: X ++ rest) with ((x :: X) ++ rest). rewrite <- Eb.
    assert (Hlenb : length block = S n) by (rewrite Eb; exact Hlen).
    split.
    + replace (take (S n) (block ++ rest)) with block
        by (rewrite <- Hlenb, take_app_length; reflexivity).
      unfold block, string_code.
      rewrite indexOf_1_string_code by lia.
      rewrite Nat.sub_0_r, Hk. reflexivity.
    + rewrite <- Hlenb. apply drop_app_length.
Qed.

Lemma store_plain (k : string) (v : value) (record : gmap string value) :
  k <> "__proto__" -> store k v record = <[k := v]> record.
Proof.
  intros Hk. unfold store.
  destruct (String.eqb k "__proto__") eqn:E; [|reflexivity].
  apply String.eqb_eq in E. contradiction.
Qed.

Lemma decodeRow_from_encoded :
  forall (fs : list (decoder * value * list jsnum)) (record : gmap string value),
    Forall (fun f => encodes f.1.1 f.1.2 f.2) fs ->
    Forall (fun f => key f.1.1 <> "__proto__") fs ->
    NoDup (map (fun f => key f.1.1) fs) ->
    exists record' : gmap string value,
      decodeRow_from (concat (map snd fs)) (map (fun f => f.1.1) fs) record
      = Decoded record' /\
      (forall d v block, In (d, v, block) fs -> record' !! key d = Some v) /\
      (forall k, ~ In k (map (fun f => key f.1.1) fs) ->
         record' !! k = record !! k).
Proof.
  induction fs as [|[[d v] block] fs IH]; intros record Henc Hplain Hnd.
  - exists record. simpl. repeat split; auto. intros d v block [].
  - apply Forall_cons in Henc as [Hd Henc]. simpl in Hd.
    apply Forall_cons in Hplain as [Hdk Hplain]. simpl in Hdk.
    apply NoDup_cons in Hnd as [Hkey Hnd].
    cbn [map concat snd].
    destruct (decode_field_encodes d v block Hd (concat (map snd fs)))
      as (x & X & HX & Hfield & Hdrop).
    rewrite HX, (decodeRow_from_step _ _ _ _ _ _ Hfield), Hdrop.
    rewrite (store_plain _ _ _ Hdk).
    destruct (IH (<[key d := v]> record) Henc Hplain Hnd)
      as (record' & Hrun & Hfields & Hother).
    exists record'. split; [exact Hrun|]. split.
    + intros d0 v0 block0 [E|Hin].
      * injection E as <- <- <-.
        rewrite Hother; [apply lookup_insert_eq|].
        intros Hin. apply Hkey. apply list_elem_of_In. exact Hin.
      * apply Hfields with (block := block0). exact Hin.
    + intros k Hk. rewrite Hother.
      * apply lookup_insert_ne. intros E. apply Hk. left. exact E.
      * intros Hin. apply Hk. right. exact Hin.
Qed.

(** X14: [decodeRow] inverts the encodings of booleans and strings.  For
    fields of distinct keys, none of them ['__proto__'], each with a
    decoder as the builders make it, the row made of their encodings (a
    boolean as 1 or 0, a string as the one-hot block of its place in the
    lookup table) is decoded to a record that gives every key its value,
    and holds nothing else. *)
Theorem decodeRow_inverts_encodings :
  forall fs : list (decoder * value * list jsnum),
    Forall (fun f => encodes f.1.1 f.1.2 f.2) fs ->
    Forall (fun f => key f.1.1 <> "__proto__") fs ->
    NoDup (map (fun f => key f.1.1) fs) ->
    exists record : gmap string value,
      decodeRow (concat (map snd fs)) (map (fun f => f.1.1) fs)
      = Decoded record /\
      (forall d v block, In (d, v, block) fs -> record !! key d = Some v) /\
      (forall k, ~ In k (map (fun f => key f.1.1) fs) -> record !! k = None).
Proof.
  intros fs Henc Hplain Hnd.
  destruct (decodeRow_from_encoded fs ∅ Henc Hplain Hnd)
    as (record & Hrun & Hfields & Hother).
  exists record. split; [exact Hrun|]. split; [exact Hfields|].
  intros k Hk. rewrite Hother by exact Hk. apply lookup_empty.
Qed.

Lemma decodeRow_inverts_encodings_witness :
  exists record : gmap string value,
    decodeRow
      ([boolean_code true] ++ string_code 1 2 ++ [boolean_code false])
      [{| type := TBoolean; key := "isGasGiant"; offset := None;
          lookupTable := None; mean := Undef; std := Undef |};
       {| type := TString; key := "planet"; offset := Some 2%nat;
          lookupTable := Some ["mars"; "saturn"]; mean := Undef; std := Undef |};
       {| type := TBoolean; key := "hasRings"; offset := None;
          lookupTable := None; mean := Undef; std := Undef |}]
    = Decoded record /\
    record !! "isGasGiant" = Some (VBoolean true) /\
    record !! "planet" = Some (VString "saturn") /\
    record !! "hasRings" = Some (VBoolean false) /\
    record !! "color" = None.
Proof.
  set (dB := {| type := TBoolean; key := "isGasGiant"; offset := None;
                lookupTable := None; mean := Undef; std := Undef |}).
  set (dS := {| type := TString; key := "planet"; offset := Some 2%nat;
                lookupTable := Some ["mars"; "saturn"];
                mean := Undef; std := Undef |}).
  set (dR := {| type := TBoolean; key := "hasRings"; offset := None;
                lookupTable := None; mean := Undef; std := Undef |}).
  set (fs := [(dB, VBoolean true, [boolean_code true]);
              (dS, VString "saturn", string_code 1 2);
              (dR, VBoolean false, [boolean_code false])]).
  assert (Henc : Forall (fun f => encodes f.1.1 f.1.2 f.2) fs).
  { repeat apply Forall_cons_2; [| | |apply Forall_nil_2]; simpl.
    - apply encodes_boolean; reflexivity.
    - apply (encodes_string dS ["mars"; "saturn"] 1 "saturn"); reflexivity.
    - apply encodes_boolean; reflexivity. }
  assert (Hplain : Forall (fun f => key f.1.1 <> "__proto__") fs).
  { repeat apply Forall_cons_2; [| | |apply Forall_nil_2]; simpl; discriminate. }
  assert (Hnd : NoDup (map (fun f => key f.1.1) fs)).
  { apply (bool_decide_unpack (NoDup (map (fun f => key f.1.1) fs))).
    vm_compute. exact I. }
  destruct (decodeRow_inverts_encodings fs Henc Hplain Hnd)
    as (record & Hrun & Hfields & Hother).
  exists record. split; [exact Hrun|]. repeat split.
  - apply (Hfields dB (VBoolean true) [boolean_code true]). left. reflexivity.
  - apply (Hfields dS (VString "saturn") (string_code 1 2)).
    right. left. reflexivity.
  - apply (Hfields dR (VBoolean false) [boolean_code false]).
    right. right. left. reflexivity.
  - apply Hother. simpl. intros [H|[H|[H|[]]]]; discriminate.
Defined.

Lemma decode_TypeError (decoders : list decoder) :
  (forall d, In d decoders -> type d = TString -> lookupTable d <> None) ->
  forall encoded : list (list jsnum),
    decode encoded decoders = TypeError <->
    exists row, In row encoded /\ (covered decoders < length row)%nat.
Proof.
  intros Htables. induction encoded as [|row encoded IH]; simpl.
  - split; [discriminate | intros (row & [] & _)].
  - pose proof (decodeRow_from_TypeError decoders Htables row ∅) as Hrow.
    fold (decodeRow row decoders) in Hrow.
    destruct (decodeRow row decoders) as [record|] eqn:E.
    + destruct (decode encoded decoders) as [records|] eqn:E'.
      * split; [discriminate|]. intros (row' & [<-|Hin] & Hlt).
        -- apply Hrow in Hlt. discriminate.
        -- assert (Hc : Decoded records = TypeError)
             by (apply IH; exists row'; auto).
           discriminate.
      * split; [|reflexivity]. intros _.
        destruct (proj1 IH eq_refl) as (row' & Hin & Hlt). eauto.
    + split; [|reflexivity]. intros _. exists row. split; [auto|].
      apply Hrow. reflexivity.
Qed.

(** X15: [decode] gives one record per encoded row, in order, and throws
    a TypeError exactly when some row is longer than what the decoders
    cover (every string decoder having its lookup table). *)
Theorem decode_all_or_TypeError :
  forall (encoded : list (list jsnum)) (decoders : list decoder),
    (forall d, In d decoders -> type d = TString -> lookupTable d <> None) ->
    (decode encoded decoders = TypeError <->
     exists row, In row encoded /\ (covered decoders < length row)%nat) /\
    (forall records, decode encoded decoders = Decoded records ->
       length records = length encoded /\
       forall i row, encoded !! i = Some row ->
         exists record, records !! i = Some record /\
                        decodeRow row decoders = Decoded record).
Proof.
  intros encoded decoders Htables. split.
  - apply decode_TypeError. exact Htables.
  - induction encoded as [|row encoded IH]; simpl; intros records H.
    + injection H as <-. split; [reflexivity|]. intros i row Hi.
      destruct i; discriminate.
    + destruct (decodeRow row decoders) as [record|] eqn:E; [|discriminate].
      destruct (decode encoded decoders) as [records'|] eqn:E'; [|discriminate].
      injection H as <-. destruct (IH records' eq_refl) as [Hlen Hrows].
      split; [simpl; f_equal; exact Hlen|].
      intros i row' Hi. destruct i as [|i]; simpl in Hi.
      * injection Hi as <-. exists record. split; [reflexivity | exact E].
      * apply Hrows. exact Hi.
Qed.

Lemma decode_all_or_TypeError_witness :
  decode [[Val 1]; [Val 0; Val 1]]
    [{| type := TBoolean; key := "isGasGiant"; offset := None;
        lookupTable := None; mean := Undef; std := Undef |}]
  = TypeError.
Proof.
  apply (proj1 (decode_all_or_TypeError [[Val 1]; [Val 0; Val 1]]
           [{| type := TBoolean; key := "isGasGiant"; offset := None;
               lookupTable := None; mean := Undef; std := Undef |}]
           ltac:(intros d [<-|[]]; discriminate))).
  exists [Val 0; Val 1]. split; [right; left; reflexivity | simpl; lia].
Defined.

End OneHotEncoderFacts.

(** ** [fit] on [X] and [y] of different lengths *)

Local Open Scope Q_scope.

Lemma repeat_lookup {A} (x : A) (n index : nat) :
  (index < n)%nat -> repeat x n !! index = Some x.
Proof.
  revert index. induction n as [|n IH]; intros index Hlt; [lia|].
  destruct index as [|index]; simpl; [reflexivity | apply IH; lia].
Qed.

Lemma filter_from_ext {A} (keep keep' : A -> nat -> bool) :
  forall (l : list A) k,
    (forall index a, l !! index = Some a ->
       keep a (k + index)%nat = keep' a (k + index)%nat) ->
    filter_from keep k l = filter_from keep' k l.
Proof.
  induction l as [|a l IH]; intros k H; simpl; [reflexivity|].
  pose proof (H 0%nat a eq_refl) as H0. rewrite Nat.add_0_r in H0.
  rewrite H0, (IH (S k)); [reflexivity|].
  intros index a' Ha'. specialize (H (S index) a' Ha').
  rewrite Nat.add_succ_r in H. exact H.
Qed.

Lemma filter_from_app {A} (keep : A -> nat -> bool) :
  forall (l l' : list A) k,
    filter_from keep k (l ++ l')
    = filter_from keep k l ++ filter_from keep (k + length l) l'.
Proof.
  induction l as [|a l IH]; intros l' k; simpl.
  - rewrite Nat.add_0_r. reflexivity.
  - rewrite (IH l' (S k)), Nat.add_succ_r.
    destruct (keep a k); reflexivity.
Qed.

(** Labels beyond the samples are not read. *)
Lemma weighted_error_more_labels (w y extra : list Q) (t : Q) :
  (length w <= length y)%nat ->
  weighted_error w (y ++ extra) t = weighted_error w y t.
Proof.
  intros Hlen. unfold weighted_error, filter_index, Tf.tensor1d_shape.
  f_equal. apply filter_from_ext. intros index a Ha. simpl.
  assert (Hi : (index < length y)%nat).
  { apply lookup_lt_Some in Ha. lia. }
  rewrite lookup_app_l by exact Hi.
  rewrite !prediction_constant, !repeat_lookup;
    [reflexivity | exact Hi | rewrite length_app; lia].
Qed.

(** The weight of a sample that has no label is never counted. *)
Lemma weighted_error_unlabelled (w w' y : list Q) (t : Q) :
  (length y <= length w)%nat ->
  weighted_error (w ++ w') y t = weighted_error w y t.
Proof.
  intros Hlen. unfold weighted_error, filter_index.
  rewrite filter_from_app. simpl.
  set (keep := fun (_ : Q) (index : nat) => _).
  assert (Hnil : filter_from keep (length w) w' = []).
  { apply filter_from_nil. intros index a _. unfold keep.
    rewrite (lookup_ge_None_2 y) by lia.
    rewrite (lookup_ge_None_2 (prediction _ _)); [reflexivity|].
    rewrite prediction_constant, repeat_length.
    unfold Tf.tensor1d_shape. lia. }
  rewrite Hnil, app_nil_r. reflexivity.
Qed.

Lemma for_each_ext {A S} (body body' : S -> A -> result S) :
  (forall s a, body s a = body' s a) ->
  forall l s, for_each body l s = for_each body' l s.
Proof.
  intros H. induction l as [|a l IH]; intros s; simpl; [reflexivity|].
  rewrite H. destruct (body' s a); simpl; [apply IH | reflexivity].
Qed.

Lemma for_collect_ext {A B} (body body' : A -> result B) :
  (forall a, body a = body' a) ->
  forall l, for_collect body l = for_collect body' l.
Proof.
  intros H. induction l as [|a l IH]; simpl; [reflexivity|].
  rewrite H, IH. reflexivity.
Qed.

Lemma round_more_labels (w : list Q) tX (y extra : list Q) m i :
  (length w <= length y)%nat ->
  round w tX (y ++ extra) m i = round w tX y m i.
Proof.
  intros Hlen. unfold round. f_equal. apply for_each_ext. intros st j.
  unfold try_feature. destruct (Tf.slice_data tX j) as [vals|e]; simpl;
    [|reflexivity].
  apply for_each_ext. intros [clf minError] t.
  unfold try_threshold, candidate.
  rewrite weighted_error_more_labels by exact Hlen. reflexivity.
Qed.

Lemma fit_rounds_more_labels c (X : list (list Q)) (y extra : list Q) :
  (length X <= length y)%nat ->
  fit_rounds c X (y ++ extra) = fit_rounds c X y.
Proof.
  intros Hlen. unfold fit_rounds, Ops.inferShape.
  destruct (Tf.tensor2d X) as [tX|e] eqn:HtX; simpl; [|reflexivity].
  apply for_collect_ext. intros i. apply round_more_labels.
  unfold initial_weights, Tf.fill. rewrite repeat_length.
  unfold Tf.tensor2d in HtX. destruct X as [|row0 X]; [discriminate|].
  destruct (Nat.eqb _ _); [|discriminate]. injection HtX as <-. exact Hlen.
Qed.

Lemma fit_without_feature c (X : list (list Q)) (y : list Q) tX :
  Tf.tensor2d X = Ok tX -> Tf.cols tX = 0%nat -> fit c X y = (c, Ok tt).
Proof.
  intros HtX Hm. unfold fit, fit_rounds, Ops.inferShape.
  rewrite HtX. simpl. rewrite Hm.
  rewrite (for_collect_const _ empty_round); [reflexivity|].
  intros i. reflexivity.
Qed.

(** C9, amended: [fit] validates no shape and raises nothing of its own
    for a mismatch: it does not compare the lengths of [X] and [y].
    Labels beyond the samples of [X] are not read: with a longer [y],
    [fit] does exactly what it does with [y] cut to the samples.  The
    weight of a sample beyond the labels is never counted as
    misclassified.  With no sample, [fit] fails in the construction of the
    tensor, before any round; with samples of no feature, once the tensor
    is built, it evaluates no threshold and returns.  A call of [fit] that
    fails leaves the instance as it was. *)
Theorem fit_validates_no_shape :
  (forall c (X : list (list Q)) (y extra : list Q),
     (length X <= length y)%nat -> fit c X (y ++ extra) = fit c X y) /\
  (forall (w w' y : list Q) (t : Q),
     (length y <= length w)%nat ->
     weighted_error (w ++ w') y t = weighted_error w y t) /\
  (forall c (y : list Q), fit c [] y = (c, Throw TfShapeError)) /\
  (forall c (X : list (list Q)) (y : list Q) tX,
     Tf.tensor2d X = Ok tX -> Tf.cols tX = 0%nat ->
     snd (fit c X y) = Ok tt) /\
  (forall c (X : list (list Q)) (y : list Q) e,
     snd (fit c X y) = Throw e -> fst (fit c X y) = c).
Proof.
  repeat split.
  - intros c X y extra Hlen. unfold fit.
    rewrite fit_rounds_more_labels by exact Hlen. reflexivity.
  - intros w w' y t Hlen. apply weighted_error_unlabelled. exact Hlen.
  - intros c X y tX HtX Hm.
    rewrite (fit_without_feature c X y tX HtX Hm). reflexivity.
Qed.

(** Two samples with five labels; five weights with four labels; two
    samples of no feature; no sample at all. *)
Lemma fit_validates_no_shape_witness :
  fit (new_AdaboostClassifier None) X2 (y2 ++ [1; 1; 1])
  = fit (new_AdaboostClassifier None) X2 y2 /\
  weighted_error (repeat (1 # 5) 4 ++ [1 # 5]) y4 1
  = weighted_error (repeat (1 # 5) 4) y4 1 /\
  snd (fit (new_AdaboostClassifier None) [[]; []] y2) = Ok tt /\
  fst (fit (new_AdaboostClassifier None) [] y4) = new_AdaboostClassifier None.
Proof.
  destruct fit_validates_no_shape as (Hmore & Hless & _ & Hm & Hfail).
  split; [|split; [|split]].
  - apply Hmore. simpl. lia.
  - apply Hless. simpl. lia.
  - apply (Hm _ _ _ {| Tf.rows := 2; Tf.cols := 0; Tf.data := [] |});
      reflexivity.
  - apply (Hfail _ _ _ TfShapeError). reflexivity.
Defined.
